(** * ArchiveReader: reading Unix archives that hold LLVM bitcode

    A shallow embedding of [tools/ndk-link/ArchiveReader.cpp]: the member
    header decoder [Archive::parseMemberHeader], the two loaders
    [Archive::loadArchive] and [Archive::loadSymbolTable], the symbol
    resolution functions [Archive::findModuleDefiningSymbol] and
    [Archive::findModulesDefiningSymbols], and [Archive::isBitcodeArchive].

    Conventions of the embedding.
    - The mapped file is a list of bytes; a [const char*] into it is kept as
      its offset from [base] (a [Z]).  The address itself, which the padding
      test [intptr_t(At) & 1] inspects, is [baseAddr + offset].
    - [unsigned] values wrap modulo 2^32 ([u32]) and [int] values modulo 2^32
      into the signed range ([int32]).  [atoi] is the C library's
      [(int) strtol(s, NULL, 10)]: [strtol] saturates at the bounds of [long]
      and the conversion to [int] keeps the low 32 bits, so that the size
      field 2147483648 reads as a negative number and 4294967300 as 4.
    - A read outside the mapped file is undefined behaviour.  The decoder
      leaves the file when an inline name moves the cursor beyond [End]
      ([ParseOutOfBounds]); a method that comes to this does not return a
      result that the source determines ([Crashed]).
    - The bitcode reader and the magic sniffer are external; they are the
      fields of [Collaborators].
    - [assert(MemberSize >= 0)] is kept: a header whose size field reads as a
      negative number stops the program ([ParseAssert], [Crashed]).
    - [Size] keeps the value of the [int MemberSize]; the field of the class
      agrees with it whenever it is not negative, that is whenever an inline
      name is no longer than the size field says. *)

From Stdlib Require Import ZArith Lia Ascii String.
From stdpp Require Import base option list strings gmap fin_maps sorting.

Local Open Scope char_scope.
Local Open Scope Z_scope.

(** ** Bytes and C library functions *)

Definition NUL : ascii := "000".
Definition LF : ascii := "010".

(** The bytes from offset [p] to the end of the buffer. *)
Definition bytesAt (buf : list ascii) (p : Z) : list ascii :=
  drop (Z.to_nat p) buf.

(** The byte at offset [p]; the byte at the end of a [MemoryBuffer] is its
    NUL terminator. *)
Definition byteAt (buf : list ascii) (p : Z) : ascii :=
  nth (Z.to_nat p) buf NUL.

(** [len] bytes starting at offset [p]. *)
Definition bytesRange (buf : list ascii) (p len : Z) : list ascii :=
  take (Z.to_nat len) (bytesAt buf p).

Definition isdigit (c : ascii) : bool :=
  let n := N_of_ascii c in ((48 <=? n) && (n <=? 57))%N.

Definition isodigit (c : ascii) : bool :=
  let n := N_of_ascii c in ((48 <=? n) && (n <=? 55))%N.

Definition isspace (c : ascii) : bool :=
  let n := N_of_ascii c in ((n =? 32) || ((9 <=? n) && (n <=? 13)))%N.

Definition digitVal (c : ascii) : Z := Z.of_N (N_of_ascii c) - 48.

Fixpoint scanDigits (digit : ascii -> bool) (radix acc : Z) (s : list ascii) : Z :=
  match s with
  | c :: s' =>
      if digit c then scanDigits digit radix (radix * acc + digitVal c) s' else acc
  | [] => acc
  end.

(** The number written at [s]: blanks, an optional sign, then decimal
    digits up to the first byte that is not one. *)
Fixpoint readDecimal (s : list ascii) : Z :=
  match s with
  | [] => 0
  | c :: s' =>
      if isspace c then readDecimal s'
      else if Ascii.eqb c "-" then - scanDigits isdigit 10 0 s'
      else if Ascii.eqb c "+" then scanDigits isdigit 10 0 s'
      else scanDigits isdigit 10 0 s
  end.

Definition LONG_MIN : Z := - 2 ^ 63.
Definition LONG_MAX : Z := 2 ^ 63 - 1.

(** [strtol(s, NULL, 10)] with a 64-bit [long]: the number written at [s],
    or the nearest bound of [long] when it does not fit. *)
Definition strtol (s : list ascii) : Z :=
  Z.max LONG_MIN (Z.min LONG_MAX (readDecimal s)).

(** The value of an [unsigned]: the low 32 bits. *)
Definition u32 (x : Z) : Z := x mod 2 ^ 32.

(** The value of an [int]: the low 32 bits, in two's complement. *)
Definition int32 (x : Z) : Z := (x + 2 ^ 31) mod 2 ^ 32 - 2 ^ 31.

(** [atoi]: C leaves the result undefined when the number does not fit an
    [int]; the C library computes [(int) strtol(s, NULL, 10)]. *)
Definition atoi (s : list ascii) : Z := int32 (strtol s).

(** [sscanf(s, "%o", &mode)]: [None] when no octal digit is found, in which
    case the source leaves [mode] uninitialised. *)
Fixpoint sscanf_o (s : list ascii) : option Z :=
  match s with
  | [] => None
  | c :: s' =>
      if isspace c then sscanf_o s'
      else
        let digits := if Ascii.eqb c "-" || Ascii.eqb c "+" then s' else s in
        match digits with
        | d :: _ =>
            if isodigit d then
              let v := scanDigits isodigit 8 0 digits in
              Some (u32 (if Ascii.eqb c "-" then - v else v))
            else None
        | [] => None
        end
  end.

(** The prefix of [l] before the first occurrence of [c]; all of [l] when
    [c] does not occur.  This is [memchr] followed by [assign]. *)
Fixpoint upTo (c : ascii) (l : list ascii) : list ascii :=
  match l with
  | [] => []
  | x :: l' => if Ascii.eqb x c then [] else x :: upTo c l'
  end.

(** ** Constants of [ArchiveInternals.h] *)

(** Modelled from the spec: [ARFILE_MAGIC] is defined in
    [ArchiveInternals.h], which is not among the sources; it is the 8-byte
    magic at offset 0 of an archive file. *)
Definition ARFILE_MAGIC : list ascii :=
  list_ascii_of_string "!<arch>" ++ [LF].

(** Modelled from the spec: [ARFILE_MEMBER_MAGIC] of [ArchiveInternals.h],
    the 2-byte terminator of a member header. *)
Definition ARFILE_MEMBER_MAGIC : list ascii := ["`"; LF].

(** Modelled from the spec: [ARFILE_STRTAB_NAME] of [ArchiveInternals.h],
    the two-slash sentinel padded with blanks. *)
Definition ARFILE_STRTAB_NAME : list ascii :=
  list_ascii_of_string "//              ".

(** Modelled from the spec: [ARFILE_SVR4_SYMTAB_NAME] of
    [ArchiveInternals.h], a slash padded with blanks. *)
Definition ARFILE_SVR4_SYMTAB_NAME : list ascii :=
  list_ascii_of_string "/               ".

(** Modelled from the spec: [ARFILE_BSD4_SYMTAB_NAME] of
    [ArchiveInternals.h], the BSD-style [__.SYMDEF] sentinel; the decoder
    compares 16 bytes. *)
Definition ARFILE_BSD4_SYMTAB_NAME : list ascii :=
  list_ascii_of_string "__.SYMDEF SORTED".

(** Modelled from the spec: [struct ArchiveMemberHeader] of
    [ArchiveInternals.h].  The fields are text: name (16 bytes), date (12),
    uid (6), gid (6), mode (8), size (10) and the terminator (2); the first
    member of an archive starts at 8 and its payload at 68. *)
Definition sizeofHeader : Z := 60.
Definition off_name : Z := 0.
Definition off_date : Z := 16.
Definition off_uid : Z := 28.
Definition off_gid : Z := 34.
Definition off_mode : Z := 40.
Definition off_size : Z := 48.
Definition off_fmag : Z := 58.

(** ** Members *)

(** Modelled from the spec: the flags of [class ArchiveMember], declared in
    [Archive.h], which is not among the sources.  A member carries a set of
    the five flags; the decoder only sets and clears single flags, and the
    bit values play no role. *)
Record Flags := mkFlags {
  HasLongFilenameFlag : bool;
  StringTableFlag : bool;
  SVR4SymbolTableFlag : bool;
  BSD4SymbolTableFlag : bool;
  BitcodeFlag : bool
}.

Definition noFlags : Flags := mkFlags false false false false false.
Definition orHasLongFilename (f : Flags) : Flags :=
  mkFlags true (StringTableFlag f) (SVR4SymbolTableFlag f)
          (BSD4SymbolTableFlag f) (BitcodeFlag f).
Definition orStringTable (f : Flags) : Flags :=
  mkFlags (HasLongFilenameFlag f) true (SVR4SymbolTableFlag f)
          (BSD4SymbolTableFlag f) (BitcodeFlag f).
Definition orSVR4SymbolTable (f : Flags) : Flags :=
  mkFlags (HasLongFilenameFlag f) (StringTableFlag f) true
          (BSD4SymbolTableFlag f) (BitcodeFlag f).
Definition orBSD4SymbolTable (f : Flags) : Flags :=
  mkFlags (HasLongFilenameFlag f) (StringTableFlag f) (SVR4SymbolTableFlag f)
          true (BitcodeFlag f).
Definition setBitcode (b : bool) (f : Flags) : Flags :=
  mkFlags (HasLongFilenameFlag f) (StringTableFlag f) (SVR4SymbolTableFlag f)
          (BSD4SymbolTableFlag f) b.

(** Modelled from the spec: [class ArchiveMember] of [Archive.h]: the
    decoded name, the payload size, the time, mode, owner and group, the
    flags, and a view of the payload, kept as its offset in the mapped
    file. *)
Record ArchiveMember := mkMember {
  path : list ascii;
  Size : Z;
  ModTime : Z;
  Mode : option Z;
  User : Z;
  Group : Z;
  flags : Flags;
  data : Z
}.

Definition isBitcode (m : ArchiveMember) : bool := BitcodeFlag (flags m).
Definition isStringTable (m : ArchiveMember) : bool := StringTableFlag (flags m).
Definition isSVR4SymbolTable (m : ArchiveMember) : bool :=
  SVR4SymbolTableFlag (flags m).
Definition isBSD4SymbolTable (m : ArchiveMember) : bool :=
  BSD4SymbolTableFlag (flags m).
Definition getSize (m : ArchiveMember) : Z := Size m.
Definition getData (m : ArchiveMember) : Z := data m.

(** ** External collaborators *)

(** A module is known by its identity only (the [Module*] of the source). *)
Definition Module := nat.

(** Modelled from the spec: the magic sniffer and the three entry points of
    the module reader.  They are opaque and may fail; [GetBitcodeSymbols] is
    declared in [ArchiveInternals.h], the others belong to LLVM. *)
Record Collaborators := {
  (** [sys::fs::identify_magic(bytes) == file_magic::bitcode] *)
  identify_magic : list ascii -> bool;
  (** [GetBitcodeSymbols]: the defined symbols of a payload, or a message *)
  GetBitcodeSymbols : list ascii -> string + list string;
  (** [getLazyBitcodeModule]: success, or a message *)
  getLazyBitcodeModule : list ascii -> string + unit;
  (** [parseBitcodeFile]: does the payload parse as a module *)
  parseBitcodeFile : list ascii -> bool
}.

(** ** The header decoder *)

(** What a call of the decoder comes to: a member and the cursor after the
    header, a null pointer with a message, the failure of
    [assert(MemberSize >= 0)], or a read outside the mapped file. *)
Inductive Parsed :=
| ParseOk (mbr : ArchiveMember) (At : Z)
| ParseError (msg : string)
| ParseAssert
| ParseOutOfBounds.

(** The [while] loop of the string-table case: [p] runs over the bytes from
    [namep]; [last_c] is the byte under [last_p], [last_i] its distance from
    [namep], [i] the distance of [p].  The result is [last_p - namep] at the
    first newline that follows a slash. *)
Fixpoint scanName (l : list ascii) (last_c : ascii) (last_i i : nat) : option nat :=
  match l with
  | [] => None
  | c :: l' =>
      if Ascii.eqb c LF && Ascii.eqb last_c "/" then Some last_i
      else scanName l' c i (S i)
  end.

Section Decoder.
Context (C : Collaborators).

Definition checkMemberSignature (buf : list ascii) (Hdr : Z) : bool :=
  bool_decide (bytesRange buf (Hdr + off_fmag) 2 = ARFILE_MEMBER_MAGIC).

(** The [switch (Hdr->name[0])] of [parseMemberHeader].  It yields the
    path, the cursor, the member size and the flags, or a message.  [len]
    and [index] are [unsigned]; [MemberSize -= len] is computed in
    [unsigned] and stored in the [int]. *)
Definition decodeName (buf strtab : list ascii) (Hdr At MemberSize : Z)
  : string + (list ascii * Z * Z * Flags) :=
  let name := fun i => byteAt buf (Hdr + i) in
  let name16 := bytesRange buf Hdr 16 in
  if Ascii.eqb (name 0) "#" then
    if Ascii.eqb (name 1) "1" && Ascii.eqb (name 2) "/" then
      if isdigit (name 3) then
        let len := u32 (atoi (bytesAt buf (Hdr + 3))) in
        let pathname := upTo NUL (bytesRange buf At len) in
        inr (pathname, At + len, int32 (MemberSize - len),
             orHasLongFilename noFlags)
      else inl "invalid long filename"%string
    else inr ([], At, MemberSize, noFlags)
  else if Ascii.eqb (name 0) "/" then
    if Ascii.eqb (name 1) "/" then
      if bool_decide (name16 = ARFILE_STRTAB_NAME) then
        inr (ARFILE_STRTAB_NAME, At, MemberSize, orStringTable noFlags)
      else inl "invalid string table name"%string
    else if Ascii.eqb (name 1) " " then
      if bool_decide (name16 = ARFILE_SVR4_SYMTAB_NAME) then
        inr (ARFILE_SVR4_SYMTAB_NAME, At, MemberSize, orSVR4SymbolTable noFlags)
      else inl "invalid SVR4 symbol table name"%string
    else if isdigit (name 1) then
      let index := u32 (atoi (bytesAt buf (Hdr + 1))) in
      if index <? Z.of_nat (length strtab) then
        let namep := drop (Z.to_nat index) strtab in
        match scanName namep (hd NUL namep) 0 0 with
        | Some n => inr (take n namep, At, MemberSize, orHasLongFilename noFlags)
        | None => inl "missing name terminator in string table"%string
        end
      else inl "name index beyond string table"%string
    else inr ([], At, MemberSize, noFlags)
  else if Ascii.eqb (name 0) "_" && Ascii.eqb (name 1) "_"
          && bool_decide (name16 = ARFILE_BSD4_SYMTAB_NAME) then
    inr (ARFILE_BSD4_SYMTAB_NAME, At, MemberSize, orBSD4SymbolTable noFlags)
  else
    inr (upTo "/" name16, At, MemberSize, noFlags).

(** After an inline name the cursor is [len] bytes further.  When that is
    beyond [End], [memchr] or the magic sniffer have read bytes that are not
    the file's. *)
Definition parseMemberHeader (buf strtab : list ascii) (At End : Z) : Parsed :=
  if At + sizeofHeader >=? End then ParseError "Unexpected end of file"
  else
    let Hdr := At in
    let At := At + sizeofHeader in
    let MemberSize := atoi (bytesAt buf (Hdr + off_size)) in
    if MemberSize <? 0 then ParseAssert
    else if At + MemberSize >? End then
      ParseError "invalid member length in archive file"
    else if negb (checkMemberSignature buf Hdr) then
      ParseError "invalid file member signature"
    else
      match decodeName buf strtab Hdr At MemberSize with
      | inl msg => ParseError msg
      | inr (pathname, At, MemberSize, flags) =>
          if At >? End then ParseOutOfBounds
          else
            let flags := setBitcode (identify_magic C (bytesRange buf At 4)) flags in
            ParseOk {| path := pathname;
                       Size := MemberSize;
                       ModTime := atoi (bytesAt buf (Hdr + off_date));
                       Mode := sscanf_o (bytesAt buf (Hdr + off_mode));
                       User := atoi (bytesAt buf (Hdr + off_uid));
                       Group := atoi (bytesAt buf (Hdr + off_gid));
                       flags := flags;
                       data := At |} At
      end.
End Decoder.

(** ** The archive *)

(** What the archive handed to the bitcode reader; [off] is the offset of
    the payload.  [EvIndexScan] marks the start of the scan that builds the
    symbol table. *)
Inductive Event :=
| EvIndexScan
| EvGetBitcodeSymbols (off : Z)
| EvGetLazyBitcodeModule (off : Z)
| EvParseBitcodeFile (off : Z).

#[global] Instance Event_eq_dec : EqDecision Event.
Proof. solve_decision. Defined.

(** Modelled from the spec: [class Archive] of [Archive.h], with the fields
    that the reader uses.  [mapfile] is [None] while the file is not mapped
    ([mapfile] and [base] are null together).  The symbol table maps a name
    to a relative offset and the module cache an offset to a module and its
    member; both are [std::map]s, as the reader's calls of [find], [insert],
    [empty] and [size] on them show.  The last two fields are not in the
    class: [nextModule] stands for the allocator (each module created gets a
    fresh identity) and [trace] records the calls made. *)
Record Archive := mkArchive {
  mapfile : option (list ascii);
  baseAddr : Z;
  members : list ArchiveMember;
  symTab : gmap string Z;
  modules : gmap Z (Module * ArchiveMember);
  strtab : list ascii;
  firstFileOffset : Z;
  nextModule : nat;
  trace : list Event
}.

Definition set_members (v : list ArchiveMember) (a : Archive) : Archive :=
  mkArchive (mapfile a) (baseAddr a) v (symTab a) (modules a) (strtab a)
            (firstFileOffset a) (nextModule a) (trace a).
Definition set_symTab (v : gmap string Z) (a : Archive) : Archive :=
  mkArchive (mapfile a) (baseAddr a) (members a) v (modules a) (strtab a)
            (firstFileOffset a) (nextModule a) (trace a).
Definition set_modules (v : gmap Z (Module * ArchiveMember)) (a : Archive) : Archive :=
  mkArchive (mapfile a) (baseAddr a) (members a) (symTab a) v (strtab a)
            (firstFileOffset a) (nextModule a) (trace a).
Definition set_strtab (v : list ascii) (a : Archive) : Archive :=
  mkArchive (mapfile a) (baseAddr a) (members a) (symTab a) (modules a) v
            (firstFileOffset a) (nextModule a) (trace a).
Definition set_firstFileOffset (v : Z) (a : Archive) : Archive :=
  mkArchive (mapfile a) (baseAddr a) (members a) (symTab a) (modules a)
            (strtab a) v (nextModule a) (trace a).
Definition log (e : Event) (a : Archive) : Archive :=
  mkArchive (mapfile a) (baseAddr a) (members a) (symTab a) (modules a)
            (strtab a) (firstFileOffset a) (nextModule a) (trace a ++ [e]).
(** A new module: its identity, and the archive after the allocation. *)
Definition newModule (a : Archive) : Module * Archive :=
  (nextModule a,
   mkArchive (mapfile a) (baseAddr a) (members a) (symTab a) (modules a)
             (strtab a) (firstFileOffset a) (S (nextModule a)) (trace a)).

(** [std::map::insert]: an entry whose key is already present stays. *)
Definition std_insert `{Countable K} {V} (k : K) (v : V) (m : gmap K V) : gmap K V :=
  match m !! k with
  | Some _ => m
  | None => <[k := v]> m
  end.

(** The mapped bytes.  A method that dereferences [mapfile] without a check
    crashes on an archive that is not mapped. *)
Definition isMapped (a : Archive) : bool :=
  match mapfile a with
  | Some _ => true
  | None => false
  end.
Definition buffer (a : Archive) : list ascii := default [] (mapfile a).
Definition getBufferSize (a : Archive) : Z := Z.of_nat (length (buffer a)).
Definition getBufferEnd (a : Archive) : Z := getBufferSize a.

Inductive Status := OK | Error (msg : string).

(** The result of a method: the value it returns with the archive it leaves,
    or [Crashed] when the source determines no result: the assertion of the
    decoder failed on the way, a null [mapfile] was dereferenced, or the
    decoder read outside the mapped file. *)
Inductive Outcome (A : Type) :=
| Returned (r : A) (a : Archive)
| Crashed.
Arguments Returned {A} r a.
Arguments Crashed {A}.

(** One turn of a scanning loop: go on with a new loop state, leave the
    method with an error, or crash. *)
Inductive Step (X : Type) :=
| Continue (x : X) (a : Archive)
| Fail (msg : string) (a : Archive)
| Crash.
Arguments Continue {X} x a.
Arguments Fail {X} msg a.
Arguments Crash {X}.

(** What [findModuleDefiningSymbol] returns: a module, a null pointer
    without a message, or a null pointer with a message. *)
Inductive Lookup := Found (m : Module) | Null | Failed (msg : string).

Section Reader.
Context (C : Collaborators).

Definition checkSignature (a : Archive) : bool :=
  negb ((getBufferSize a <? 8)
        || negb (bool_decide (take 8 (buffer a) = ARFILE_MAGIC))).

(** [At += mbr->getSize(); if ((intptr_t(At) & 1) == 1) At++;] *)
Definition skipPayload (a : Archive) (At : Z) (mbr : ArchiveMember) : Z :=
  let At := At + getSize mbr in
  if Z.land (baseAddr a + At) 1 =? 1 then At + 1 else At.

Definition payload (a : Archive) (mbr : ArchiveMember) : list ascii :=
  bytesRange (buffer a) (getData mbr) (getSize mbr).

(** *** [Archive::loadArchive] *)

(** The body of the [while] loop; the loop state is the cursor and
    [foundFirstFile]. *)
Definition loadArchive_body (Save : Z) (foundFirstFile : bool) (a : Archive)
  : Step (Z * bool) :=
  match parseMemberHeader C (buffer a) (strtab a) Save (getBufferEnd a) with
  | ParseAssert | ParseOutOfBounds => Crash
  | ParseError msg => Fail msg a
  | ParseOk mbr At =>
      if isSVR4SymbolTable mbr || isBSD4SymbolTable mbr then
        Continue (skipPayload a At mbr, foundFirstFile) a
      else if isStringTable mbr then
        Continue (skipPayload a At mbr, foundFirstFile)
             (set_strtab (bytesRange (buffer a) At (getSize mbr)) a)
      else
        let a := if foundFirstFile then a
                 else set_firstFileOffset (u32 Save) a in
        Continue (skipPayload a At mbr, true)
             (set_members (members a ++ [mbr]) a)
  end.

Fixpoint loadArchive_loop (fuel : nat) (At : Z) (foundFirstFile : bool)
         (a : Archive) : Outcome Status :=
  match fuel with
  | O => Returned OK a
  | S fuel =>
      if At <? getBufferEnd a then
        match loadArchive_body At foundFirstFile a with
        | Crash => Crashed
        | Fail msg a => Returned (Error msg) a
        | Continue (At, foundFirstFile) a => loadArchive_loop fuel At foundFirstFile a
        end
      else Returned OK a
  end.

(** The loop runs on the variant [End - At]: every turn moves the cursor
    forward (see [loadArchive_loop_fuel]). *)
Definition loadArchive (a : Archive) : Outcome Status :=
  let a := set_symTab ∅ (set_members [] a) in
  if negb (isMapped a) then Crashed
  else if negb (checkSignature a) then
    Returned (Error "invalid signature for an archive file") a
  else
    loadArchive_loop (Z.to_nat (getBufferEnd a - 8)) 8 false a.

(** *** [Archive::loadSymbolTable] *)

Definition loadSymbolTable (a : Archive) : Outcome Status :=
  let a := set_members [] a in
  let End := getBufferEnd a in
  if negb (isMapped a) then Crashed
  else if negb (checkSignature a) then
    Returned (Error "invalid signature for an archive file") a
  else
    let FirstFile := 8 in
    match parseMemberHeader C (buffer a) (strtab a) FirstFile End with
    | ParseAssert | ParseOutOfBounds => Crashed
    | ParseError msg => Returned (Error msg) a
    | ParseOk mbr At =>
        (* the foreign symbol table, if any *)
        let r1 :=
          if isSVR4SymbolTable mbr || isBSD4SymbolTable mbr then
            let At := skipPayload a At mbr in
            (At, parseMemberHeader C (buffer a) (strtab a) At End)
          else (FirstFile, ParseOk mbr At) in
        match r1 with
        | (_, ParseAssert) | (_, ParseOutOfBounds) => Crashed
        | (_, ParseError msg) => Returned (Error msg) a
        | (FirstFile, ParseOk mbr At) =>
            (* the string table, if any *)
            let r2 :=
              if isStringTable mbr then
                let a := set_strtab (payload a mbr) a in
                let At := skipPayload a At mbr in
                (At, a, parseMemberHeader C (buffer a) (strtab a) At End)
              else (FirstFile, a, ParseOk mbr At) in
            match r2 with
            | (_, _, ParseAssert) | (_, _, ParseOutOfBounds) => Crashed
            | (_, a, ParseError msg) => Returned (Error msg) a
            | (FirstFile, a, ParseOk mbr _) =>
                Returned OK
                  (set_firstFileOffset (u32 FirstFile)
                     (set_members (members a ++ [mbr]) a))
            end
        end
    end.

(** *** [Archive::findModuleDefiningSymbol] *)

Definition findModuleDefiningSymbol (symbol : string) (a : Archive)
  : Outcome Lookup :=
  match symTab a !! symbol with
  | None => Returned Null a
  | Some second =>
      let fileOffset := u32 (second + firstFileOffset a) in
      match modules a !! fileOffset with
      | Some (m, _) => Returned (Found m) a
      | None =>
          if negb (isMapped a) then Crashed
          else
            match parseMemberHeader C (buffer a) (strtab a) fileOffset
                                    (getBufferEnd a) with
            | ParseAssert | ParseOutOfBounds => Crashed
            | ParseError msg => Returned (Failed msg) a
            | ParseOk mbr _ =>
                let a := log (EvGetLazyBitcodeModule (getData mbr)) a in
                match getLazyBitcodeModule C (payload a mbr) with
                | inl msg => Returned (Failed msg) a
                | inr _ =>
                    (* [Result.get()] is moved into the cache entry; what
                       [Result.get().get()] then returns is the null pointer *)
                    let '(m, a) := newModule a in
                    Returned Null
                             (set_modules (std_insert fileOffset (m, mbr) (modules a)) a)
                end
            end
      end
  end.

(** *** [Archive::findModulesDefiningSymbols] *)

(** The body of the scan that builds the symbol table. *)
Definition indexMember (At : Z) (a : Archive) : Step Z :=
  let offset := u32 (At - firstFileOffset a) in
  match parseMemberHeader C (buffer a) (strtab a) At (getBufferEnd a) with
  | ParseAssert | ParseOutOfBounds => Crash
  | ParseError msg => Fail msg a
  | ParseOk mbr At =>
      if isBitcode mbr then
        let a := log (EvGetBitcodeSymbols At) a in
        match GetBitcodeSymbols C (bytesRange (buffer a) At (getSize mbr)) with
        | inr symbols =>
            let '(M, a) := newModule a in
            let a := set_symTab
                       (foldl (fun t sym => std_insert sym offset t) (symTab a) symbols) a in
            let a := set_modules (std_insert offset (M, mbr) (modules a)) a in
            Continue (skipPayload a At mbr) a
        | inl msg =>
            Fail ("Can't parse bitcode member: "
                  ++ string_of_list_ascii (path mbr) ++ ": " ++ msg) a
        end
      else Continue (skipPayload a At mbr) a
  end.

Fixpoint indexLoop (fuel : nat) (At : Z) (a : Archive) : Outcome Status :=
  match fuel with
  | O => Returned OK a
  | S fuel =>
      if At <? getBufferEnd a then
        match indexMember At a with
        | Crash => Crashed
        | Fail msg a => Returned (Error msg) a
        | Continue At a => indexLoop fuel At a
        end
      else Returned OK a
  end.

(** The [if (symTab.empty())] block. *)
Definition buildSymbolTable (a : Archive) : Outcome Status :=
  let a := log EvIndexScan a in
  indexLoop (Z.to_nat (getBufferEnd a - firstFileOffset a)) (firstFileOffset a) a.

(** What the call leaves in its reference parameters. *)
Record Resolution := mkResolution {
  symbols_left : list string;
  result : list Module;
  error : option string
}.

Definition keepSymbol (sym : string) (o : Outcome Resolution) : Outcome Resolution :=
  match o with
  | Returned r a =>
      Returned (mkResolution (sym :: symbols_left r) (result r) (error r)) a
  | Crashed => Crashed
  end.

(** The [for] loop over the caller's [std::set]: [symbols] are its
    elements in iteration order. *)
Fixpoint resolveLoop (symbols : list string) (Added : gset Module)
         (result : list Module) (error : option string) (a : Archive)
  : Outcome Resolution :=
  match symbols with
  | [] => Returned (mkResolution [] result error) a
  | sym :: Next =>
      match findModuleDefiningSymbol sym a with
      | Crashed => Crashed
      | Returned Null a => keepSymbol sym (resolveLoop Next Added result error a)
      | Returned (Failed msg) a =>
          keepSymbol sym (resolveLoop Next Added result (Some msg) a)
      | Returned (Found m) a =>
          if decide (m ∈ Added) then
            keepSymbol sym (resolveLoop Next Added result error a)
          else
            resolveLoop Next ({[m]} ∪ Added) (result ++ [m]) error a
      end
  end.

Definition symTab_empty (a : Archive) : bool := bool_decide (symTab a = ∅).

(** The call returns [true] or [false] with a message; in both cases the
    reference parameters are as [Resolution] says. *)
Definition findModulesDefiningSymbols (symbols : list string)
           (result : list Module) (a : Archive) : Outcome (bool * Resolution) :=
  match mapfile a with
  | None =>
      Returned (false,
                mkResolution symbols result
                  (Some "Empty archive invalid for finding modules defining symbols"%string)) a
  | Some _ =>
      match (if symTab_empty a then buildSymbolTable a else Returned OK a) with
      | Crashed => Crashed
      | Returned (Error msg) a =>
          Returned (false, mkResolution symbols result (Some msg)) a
      | Returned OK a =>
          match resolveLoop symbols ∅ result None a with
          | Crashed => Crashed
          | Returned r a => Returned (true, r) a
          end
      end
  end.

(** *** [Archive::isBitcodeArchive] *)

Definition isBitcodeArchive (a : Archive) : Outcome bool :=
  match (if symTab_empty a then loadSymbolTable a else Returned OK a) with
  | Crashed => Crashed
  | Returned (Error _) a => Returned false a
  | Returned OK a =>
      if negb (size (symTab a) =? 0)%nat then Returned true a
      else
        match loadArchive a with
        | Crashed => Crashed
        | Returned (Error _) a => Returned false a
        | Returned OK a =>
            match find isBitcode (members a) with
            | Some mbr =>
                let a := log (EvParseBitcodeFile (getData mbr)) a in
                Returned (parseBitcodeFile C (payload a mbr)) a
            | None => Returned false a
            end
        end
  end.
End Reader.

(** ** Example archives *)

(** A header field: [s] padded with blanks to [n] bytes. *)
Definition field (n : nat) (s : string) : list ascii :=
  take n (list_ascii_of_string s ++ replicate n " ").

(** A member header with the given name and size fields. *)
Definition header (name size : string) : list ascii :=
  field 16 name ++ field 12 "0" ++ field 6 "0" ++ field 6 "0"
  ++ field 8 "644" ++ field 10 size ++ ARFILE_MEMBER_MAGIC.

(** The bitcode magic: 'B' 'C' 0xC0 0xDE. *)
Definition BC : list ascii := ["B"; "C"; "192"; "222"].

(** A stand-in for the bitcode reader: a payload is bitcode when it starts
    with the magic; it fails to parse when it contains '!'; otherwise every
    byte after the magic is the name of one defined symbol. *)
Definition toyReader : Collaborators := {|
  identify_magic := fun bytes => bool_decide (bytes = BC);
  GetBitcodeSymbols := fun p =>
    if bool_decide ("!" ∈ p) then inl "malformed block"%string
    else inr (map (fun c => String c EmptyString) (drop 4 p));
  getLazyBitcodeModule := fun p =>
    if bool_decide ("!" ∈ p) then inl "malformed block"%string else inr tt;
  parseBitcodeFile := fun p => negb (bool_decide ("!" ∈ p))
|}.

(** A freshly opened archive over [bytes], mapped at an even address. *)
Definition openArchive (bytes : list ascii) : Archive :=
  mkArchive (Some bytes) 4096 [] ∅ ∅ [] 0 0 [].

(** [Archive::OpenAndLoadSymbols] and [Archive::OpenAndLoad] on a file with
    the given bytes: the archive, or [None] for the null pointer. *)
Definition OpenAndLoadSymbols (C : Collaborators) (bytes : list ascii)
  : option Archive :=
  match loadSymbolTable C (openArchive bytes) with
  | Returned OK a => Some a
  | _ => None
  end.

Definition OpenAndLoad (C : Collaborators) (bytes : list ascii) : option Archive :=
  match loadArchive C (openArchive bytes) with
  | Returned OK a => Some a
  | _ => None
  end.

(** Two bitcode members: [foo.bc] (header at 8, payload at 68) defines "f"
    and "g"; [bar.bc] (header at 74, payload at 134) defines "f". *)
Definition twoDefiners : list ascii :=
  ARFILE_MAGIC
  ++ header "foo.bc/" "6" ++ BC ++ ["f"; "g"]
  ++ header "bar.bc/" "5" ++ BC ++ ["f"] ++ [LF].

(** One bitcode member, [foo.bc] (header at 8, payload at 68), that defines
    "f", "g" and "h". *)
Definition threeSymbols : list ascii :=
  ARFILE_MAGIC ++ header "foo.bc/" "7" ++ BC ++ ["f"; "g"; "h"] ++ [LF].

(** One member with the inline name "ab" in a block of three bytes; the size
    field counts the block and the four bytes of contents. *)
Definition inlineName : list ascii :=
  ARFILE_MAGIC
  ++ header "#1/3" "7" ++ ["a"; "b"; NUL] ++ list_ascii_of_string "wxyz" ++ [LF].

(** One member that is not bitcode. *)
Definition plainMember : list ascii :=
  ARFILE_MAGIC ++ header "junk.o/" "4" ++ list_ascii_of_string "junk".


(** A short name that starts with '#'. *)
Definition hashName : list ascii :=
  ARFILE_MAGIC ++ header "#abc/" "2" ++ list_ascii_of_string "xy".

(** One member whose name refers to offset 0 of a string table, in a file
    that has no string table. *)
Definition referencing : list ascii :=
  ARFILE_MAGIC ++ header "/0" "2" ++ list_ascii_of_string "xy".

(** A member, then a string table that holds one name, then a member named
    by its offset in the table: headers at 8, 72 and 152, payloads at 68, 132
    and 212. *)
Definition tableAfterMember : list ascii :=
  ARFILE_MAGIC
  ++ header "foo.o/" "4" ++ list_ascii_of_string "junk"
  ++ header "//" "20" ++ list_ascii_of_string "verylongfilename.o/" ++ [LF]
  ++ header "/0" "4" ++ list_ascii_of_string "data".



(** One member whose size field is 4294967300, which is 2^32 + 4. *)
Definition sizeWraps : list ascii :=
  ARFILE_MAGIC ++ header "junk.o/" "4294967300" ++ list_ascii_of_string "junk".

(** One member that announces an inline name of 1000000 bytes, in a file of
    72 bytes. *)
Definition nameBeyondEnd : list ascii :=
  ARFILE_MAGIC ++ header "#1/1000000" "4" ++ list_ascii_of_string "junk".

(** One member named by the offset 4294967296, which is 2^32. *)
Definition indexWraps : list ascii :=
  ARFILE_MAGIC ++ header "/4294967296" "2" ++ list_ascii_of_string "xy".

(** The magic and one header that announces an inline name of 3000000000
    bytes with the size field 4: the start of a file larger than an [int]
    counts. *)
Definition longNameHeader : list ascii :=
  ARFILE_MAGIC ++ header "#1/3000000000" "4".

(** The five special encodings of the name field, as the specification
    lists them: "#1/" followed by decimal digits, the string-table sentinel,
    the SVR4 and the BSD symbol-table sentinels, and "/" followed by decimal
    digits. *)
Definition specialEncoding (name16 : list ascii) : bool :=
  (bool_decide (take 3 name16 = ["#"; "1"; "/"]) && isdigit (nth 3 name16 NUL))
  || bool_decide (name16 = ARFILE_STRTAB_NAME)
  || bool_decide (name16 = ARFILE_SVR4_SYMTAB_NAME)
  || bool_decide (name16 = ARFILE_BSD4_SYMTAB_NAME)
  || (bool_decide (take 1 name16 = ["/"]) && isdigit (nth 1 name16 NUL)).



(** ** Vocabulary of the properties *)

(** The number that a run of decimal digits denotes. *)
Definition decimal (ds : list ascii) : Z :=
  foldl (fun acc d => 10 * acc + digitVal d) 0 ds.

(** What a turn of the loader's loop leaves alone. *)
Definition loaderFrame (a a' : Archive) : Prop :=
  mapfile a' = mapfile a /\ baseAddr a' = baseAddr a
  /\ symTab a' = symTab a /\ modules a' = modules a
  /\ nextModule a' = nextModule a /\ trace a' = trace a
  /\ (strtab a' = strtab a \/ exists p n, strtab a' = bytesRange (buffer a) p n).

(** [mbr] was decoded from a header of the mapped file. *)
Definition decodedIn (C : Collaborators) (a : Archive) (mbr : ArchiveMember) : Prop :=
  exists strtab At,
    parseMemberHeader C (buffer a) strtab At (getBufferEnd a) = ParseOk mbr (data mbr).

(** What a full load adds: members decoded from the file, at the end of the
    member list, and as string table the payload of a string-table member
    of the file, if it came to one. *)
Definition loaded (C : Collaborators) (a a' : Archive) : Prop :=
  (exists new, members a' = members a ++ new /\ Forall (decodedIn C a) new)
  /\ (strtab a' = strtab a
      \/ exists mbr,
           decodedIn C a mbr /\ isStringTable mbr = true
           /\ strtab a' = payload a mbr).

(** How often the scan that builds the symbol table was started. *)
Definition indexScans (a : Archive) : nat :=
  length (filter (fun e => e = EvIndexScan) (trace a)).

(** What the scan leaves alone. *)
Definition indexFrame (a a' : Archive) : Prop :=
  mapfile a' = mapfile a /\ baseAddr a' = baseAddr a
  /\ strtab a' = strtab a /\ firstFileOffset a' = firstFileOffset a
  /\ members a' = members a /\ indexScans a' = indexScans a.

(** The length of the inline name that the header at [At] announces: the
    [unsigned len] of the decoder for a name field [#1/] followed by a digit,
    and 0 for any other name. *)
Definition inlineLen (buf : list ascii) (At : Z) : Z :=
  if Ascii.eqb (byteAt buf (At + 0)) "#" && Ascii.eqb (byteAt buf (At + 1)) "1"
     && Ascii.eqb (byteAt buf (At + 2)) "/" && isdigit (byteAt buf (At + 3))
  then u32 (atoi (bytesAt buf (At + 3)))
  else 0.

(** Where the payload of the member with its header at [At] ends, going by
    the header: the cursor after the header and the inline name, plus the
    [int] that is left of the size field after the length of the inline name
    is taken off.  This is the header's end plus the size field, unless the
    subtraction leaves the range of [int]. *)
Definition memberEnd (buf : list ascii) (At : Z) : Z :=
  let len := inlineLen buf At in
  At + sizeofHeader + len + int32 (atoi (bytesAt buf (At + off_size)) - len).

(** Where the header after the one at [At] starts: at the end of the
    payload, moved to the next even address. *)
Definition nextHeader (base : Z) (buf : list ascii) (At : Z) : Z :=
  let e := memberEnd buf At in
  if Z.odd (base + e) then e + 1 else e.

(** The offsets at which a scan that starts at [start] looks for a header. *)
Inductive scanned (base : Z) (buf : list ascii) (start : Z) : Z -> Prop :=
| scanned_start : scanned base buf start start
| scanned_next At :
    scanned base buf start At -> scanned base buf start (nextHeader base buf At).





(** The operations of the linker on an archive that is loaded. *)
Inductive Operation :=
| FindModules (symbols : list string) (result : list Module)
| IsBitcodeArchive.

Section Operations.
Context (C : Collaborators).

Definition perform (op : Operation) (a : Archive) : option Archive :=
  match op with
  | FindModules symbols result =>
      match findModulesDefiningSymbols C symbols result a with
      | Returned _ a' => Some a'
      | Crashed => None
      end
  | IsBitcodeArchive =>
      match isBitcodeArchive C a with
      | Returned _ a' => Some a'
      | Crashed => None
      end
  end.

Fixpoint performAll (ops : list Operation) (a : Archive) : option Archive :=
  match ops with
  | [] => Some a
  | op :: ops =>
      match perform op a with
      | Some a' => performAll ops a'
      | None => None
      end
  end.

End Operations.

(** Evaluate the left-hand side of an equation. *)
Ltac evaluate :=
  match goal with
  | |- ?l = _ =>
      let v := eval vm_compute in l in
      transitivity v; [vm_compute; reflexivity|]
  end.

(** ** The rest of the reader *)

Section AllModules.
Context (C : Collaborators).

(** The [for] loop of [Archive::getAllModules] over the member list.  The
    method returns [true] when a bitcode member fails to parse, and [false]
    when it went through the whole list. *)
Fixpoint getAllModules_loop (ms : list ArchiveMember) (Modules : list Module)
         (a : Archive) : bool * list Module * Archive :=
  match ms with
  | [] => (false, Modules, a)
  | mbr :: ms =>
      if isBitcode mbr then
        let a := log (EvParseBitcodeFile (getData mbr)) a in
        if parseBitcodeFile C (payload a mbr) then
          let '(m, a) := newModule a in
          getAllModules_loop ms (Modules ++ [m]) a
        else (true, Modules, a)
      else getAllModules_loop ms Modules a
  end.

Definition getAllModules (Modules : list Module) (a : Archive)
  : bool * list Module * Archive :=
  getAllModules_loop (members a) Modules a.
End AllModules.

(** The methods of the reader, as calls on one archive. *)
Inductive Call :=
| CallLoadArchive
| CallLoadSymbolTable
| CallFindModule (symbol : string)
| CallFindModules (symbols : list string) (result : list Module)
| CallIsBitcodeArchive
| CallGetAllModules (Modules : list Module).

(** The archive after a call, [None] when the call does not return. *)
Definition call (C : Collaborators) (c : Call) (a : Archive) : option Archive :=
  let after {A} (o : Outcome A) :=
    match o with
    | Returned _ a' => Some a'
    | Crashed => None
    end in
  match c with
  | CallLoadArchive => after (loadArchive C a)
  | CallLoadSymbolTable => after (loadSymbolTable C a)
  | CallFindModule symbol => after (findModuleDefiningSymbol C symbol a)
  | CallFindModules symbols result =>
      after (findModulesDefiningSymbols C symbols result a)
  | CallIsBitcodeArchive => after (isBitcodeArchive C a)
  | CallGetAllModules Modules => Some (snd (getAllModules C Modules a))
  end.

Fixpoint calls (C : Collaborators) (cs : list Call) (a : Archive) : option Archive :=
  match cs with
  | [] => Some a
  | c :: cs =>
      match call C c a with
      | Some a' => calls C cs a'
      | None => None
      end
  end.

(** Where the payload of a member ends. *)
Definition payloadEnd (m : ArchiveMember) : Z := data m + Size m.

(** A member that is neither a symbol table nor the string table. *)
Definition ordinary (m : ArchiveMember) : Prop :=
  isStringTable m = false /\ isSVR4SymbolTable m = false
  /\ isBSD4SymbolTable m = false.

(** [m1] lies before [m2] in the file: the payload of [m2] starts at least
    the length of a header after the end of the payload of [m1]. *)
Definition before (m1 m2 : ArchiveMember) : Prop :=
  payloadEnd m1 + sizeofHeader <= data m2.

(** What the loop of the loader knows about [firstFileOffset]: with
    [foundFirstFile] set, it is the offset at which the first member of the
    list was decoded; otherwise the list is empty and [firstFileOffset] is
    still [ffo0]. *)
Definition firstFileKnown (C : Collaborators) (base : Z) (buf : list ascii)
           (ffo0 : Z) (found : bool) (a : Archive) : Prop :=
  baseAddr a = base /\ buffer a = buf
  /\ if found then
       exists mbr rest Save strtab,
         members a = mbr :: rest
         /\ scanned base buf 8 Save
         /\ firstFileOffset a = u32 Save
         /\ parseMemberHeader C buf strtab Save (Z.of_nat (length buf))
            = ParseOk mbr (data mbr)
     else members a = [] /\ firstFileOffset a = ffo0.

(** The header at [At] decodes to a bitcode member whose payload defines
    [name], according to [GetBitcodeSymbols]. *)
Definition definedAt (C : Collaborators) (a : Archive) (At : Z) (name : string)
  : Prop :=
  exists mbr symbols,
    parseMemberHeader C (buffer a) (strtab a) At (getBufferEnd a)
    = ParseOk mbr (data mbr)
    /\ isBitcode mbr = true
    /\ GetBitcodeSymbols C (payload a mbr) = inr symbols
    /\ name ∈ symbols.

(** Every cached module was handed out by the allocator, and no module is
    cached under two keys. *)
Definition cacheSound (a : Archive) : Prop :=
  (forall k m mbr, modules a !! k = Some (m, mbr) -> (m < nextModule a)%nat)
  /\ (forall k1 k2 m mbr1 mbr2,
        modules a !! k1 = Some (m, mbr1) -> modules a !! k2 = Some (m, mbr2) ->
        k1 = k2).

(** A string table that holds one name (header at 8, payload at 68), and a
    member named by its offset in the table (header at 88, payload at 148). *)
Definition withStringTable : list ascii :=
  ARFILE_MAGIC
  ++ header "//" "20" ++ list_ascii_of_string "verylongfilename.o/" ++ [LF]
  ++ header "/0" "4" ++ list_ascii_of_string "data".

(** What no call undoes: the file stays mapped where it is, the cache keeps
    its entries, the allocator and the trace only go forward. *)
Definition grows (a a' : Archive) : Prop :=
  mapfile a' = mapfile a /\ baseAddr a' = baseAddr a
  /\ modules a ⊆ modules a'
  /\ (nextModule a <= nextModule a')%nat
  /\ trace a `prefix_of` trace a'.

Definition keeps (a a' : Archive) : Prop :=
  grows a a' /\ (cacheSound a -> cacheSound a').

(** * Properties *)

(** ** Reading the buffer *)

Lemma bytesAt_offset buf p k :
  0 <= p -> 0 <= k -> bytesAt buf (p + k) = drop (Z.to_nat k) (bytesAt buf p).
Proof.
  intros Hp Hk. unfold bytesAt. rewrite drop_drop. f_equal. lia.
Qed.

Lemma nth_hd_drop {A} (n : nat) (l : list A) (d : A) : nth n l d = hd d (drop n l).
Proof.
  revert l. induction n as [|n IH]; intros [|x l]; simpl; auto.
Qed.

Lemma byteAt_offset buf p k :
  0 <= p -> 0 <= k -> byteAt buf (p + k) = nth (Z.to_nat k) (bytesAt buf p) NUL.
Proof.
  intros Hp Hk. unfold byteAt. rewrite !nth_hd_drop.
  fold (bytesAt buf (p + k)). by rewrite bytesAt_offset by lia.
Qed.




(** ** Decimal fields *)

Lemma isdigit_not_blank_or_sign d :
  isdigit d = true ->
  isspace d = false /\ Ascii.eqb d "-" = false /\ Ascii.eqb d "+" = false.
Proof.
  destruct d as [[] [] [] [] [] [] [] []]; vm_compute; intuition congruence.
Qed.

Lemma isdigit_digitVal d : isdigit d = true -> 0 <= digitVal d <= 9.
Proof.
  unfold isdigit, digitVal. intros H.
  apply andb_true_iff in H as [H1 H2].
  apply N.leb_le in H1. apply N.leb_le in H2. lia.
Qed.

Lemma scanDigits_run acc ds c rest :
  Forall (fun d => isdigit d = true) ds -> isdigit c = false ->
  scanDigits isdigit 10 acc (ds ++ c :: rest)
  = foldl (fun acc d => 10 * acc + digitVal d) acc ds.
Proof.
  intros Hds Hc. revert acc.
  induction Hds as [|d ds Hd _ IH]; intros acc; simpl.
  - by rewrite Hc.
  - by rewrite Hd, IH.
Qed.

Lemma foldl_digits_nonneg acc ds :
  0 <= acc -> Forall (fun d => isdigit d = true) ds ->
  0 <= foldl (fun acc d => 10 * acc + digitVal d) acc ds.
Proof.
  intros Hacc Hds. revert acc Hacc.
  induction Hds as [|d ds Hd _ IH]; intros acc Hacc; simpl; [done|].
  apply IH. pose proof (isdigit_digitVal d Hd). lia.
Qed.

Lemma decimal_nonneg ds : Forall (fun d => isdigit d = true) ds -> 0 <= decimal ds.
Proof. intros Hds. by apply foldl_digits_nonneg. Qed.

Lemma readDecimal_run ds c rest :
  ds <> [] -> Forall (fun d => isdigit d = true) ds -> isdigit c = false ->
  readDecimal (ds ++ c :: rest) = decimal ds.
Proof.
  intros Hne Hds Hc. destruct ds as [|d ds]; [done|].
  pose proof (Forall_inv Hds) as Hd.
  destruct (isdigit_not_blank_or_sign d Hd) as (Hs & Hm & Hp).
  change ((d :: ds) ++ c :: rest) with (d :: (ds ++ c :: rest)).
  cbn [readDecimal]. rewrite Hs, Hm, Hp.
  change (d :: (ds ++ c :: rest)) with ((d :: ds) ++ c :: rest).
  by rewrite scanDigits_run.
Qed.

(** *** The arithmetic of [int] and [unsigned] *)

Lemma int32_small x : - 2 ^ 31 <= x < 2 ^ 31 -> int32 x = x.
Proof. intros H. unfold int32. rewrite Z.mod_small; lia. Qed.

Lemma int32_range x : - 2 ^ 31 <= int32 x < 2 ^ 31.
Proof.
  unfold int32. pose proof (Z.mod_pos_bound (x + 2 ^ 31) (2 ^ 32)). lia.
Qed.

Lemma u32_small x : 0 <= x < 2 ^ 32 -> u32 x = x.
Proof. intros H. unfold u32. by rewrite Z.mod_small. Qed.

Lemma u32_range x : 0 <= u32 x < 2 ^ 32.
Proof. unfold u32. apply Z.mod_pos_bound. lia. Qed.

Lemma u32_int32 x : u32 (int32 x) = u32 x.
Proof.
  unfold u32, int32. rewrite Zminus_mod_idemp_l. f_equal. lia.
Qed.

(** [MemberSize -= len]: the difference, or the difference plus 2^32 when
    [len] exceeds [MemberSize] by more than 2^31. *)
Lemma int32_sub M len :
  0 <= M < 2 ^ 31 -> 0 <= len < 2 ^ 32 ->
  int32 (M - len) = if M + 2 ^ 31 <? len then M - len + 2 ^ 32 else M - len.
Proof.
  intros HM Hlen. destruct (Z.ltb_spec (M + 2 ^ 31) len).
  - unfold int32.
    replace (M - len + 2 ^ 31) with (M - len + 2 ^ 32 + 2 ^ 31 + -1 * 2 ^ 32) by lia.
    rewrite Z_mod_plus_full. rewrite Z.mod_small; lia.
  - apply int32_small. lia.
Qed.

Lemma atoi_range s : - 2 ^ 31 <= atoi s < 2 ^ 31.
Proof. apply int32_range. Qed.

(** A number that fits an [int] is read as it is written. *)
Lemma atoi_small s :
  - 2 ^ 31 <= readDecimal s < 2 ^ 31 -> atoi s = readDecimal s.
Proof.
  intros H. unfold atoi, strtol, LONG_MIN, LONG_MAX.
  rewrite Z.min_r, Z.max_r by lia. by apply int32_small.
Qed.

Lemma atoi_run ds c rest :
  ds <> [] -> Forall (fun d => isdigit d = true) ds -> isdigit c = false ->
  decimal ds < 2 ^ 31 ->
  atoi (ds ++ c :: rest) = decimal ds.
Proof.
  intros Hne Hds Hc Hsmall. pose proof (decimal_nonneg ds Hds).
  rewrite atoi_small; rewrite readDecimal_run by done; [done|lia].
Qed.

(** The [unsigned] that takes the [int] of a run of digits is the number
    written, as long as that is below 2^32. *)
Lemma u32_atoi_run ds c rest :
  ds <> [] -> Forall (fun d => isdigit d = true) ds -> isdigit c = false ->
  decimal ds < 2 ^ 32 ->
  u32 (atoi (ds ++ c :: rest)) = decimal ds.
Proof.
  intros Hne Hds Hc Hsmall. pose proof (decimal_nonneg ds Hds).
  unfold atoi, strtol, LONG_MIN, LONG_MAX. rewrite readDecimal_run by done.
  rewrite Z.min_r, Z.max_r by lia. rewrite u32_int32. by apply u32_small.
Qed.

(** ** The header decoder *)

Section DecoderFacts.
Context (C : Collaborators).

(** The three checks that precede the decoding of the name. *)
Lemma parseMemberHeader_checked buf strtab At End s :
  At + sizeofHeader < End ->
  atoi (bytesAt buf (At + off_size)) = s ->
  0 <= s -> At + sizeofHeader + s <= End ->
  checkMemberSignature buf At = true ->
  parseMemberHeader C buf strtab At End
  = match decodeName buf strtab At (At + sizeofHeader) s with
    | inl msg => ParseError msg
    | inr (pathname, At', MemberSize, flags) =>
        if At' >? End then ParseOutOfBounds
        else
          ParseOk {| path := pathname;
                     Size := MemberSize;
                     ModTime := atoi (bytesAt buf (At + off_date));
                     Mode := sscanf_o (bytesAt buf (At + off_mode));
                     User := atoi (bytesAt buf (At + off_uid));
                     Group := atoi (bytesAt buf (At + off_gid));
                     flags := setBitcode (identify_magic C (bytesRange buf At' 4)) flags;
                     data := At' |} At'
    end.
Proof.
  intros Hend Hs Hs0 Hfit Hsig. unfold parseMemberHeader.
  destruct (Z.geb_spec (At + sizeofHeader) End); [lia|].
  rewrite Hs. destruct (Z.ltb_spec s 0); [lia|].
  destruct (Z.gtb_spec (At + sizeofHeader + s) End); [lia|].
  rewrite Hsig. simpl negb. cbv iota.
  destruct (decodeName buf strtab At (At + sizeofHeader) s) as [msg|[[[p At'] sz] fl]];
    reflexivity.
Qed.



End DecoderFacts.

(** ** Scanning *)

Lemma land_1_odd x : (Z.land x 1 =? 1) = Z.odd x.
Proof.
  change 1 with (Z.ones 1) at 1. rewrite Z.land_ones by lia.
  change (2 ^ 1) with 2. rewrite Zmod_odd. by destruct (Z.odd x).
Qed.

Section ScanFacts.
Context (C : Collaborators).

(** What the decoding of the name does to the cursor and to the size. *)
Lemma decodeName_extent buf strtab Hdr At MemberSize pathname At' sz fl :
  decodeName buf strtab Hdr At MemberSize = inr (pathname, At', sz, fl) ->
  - 2 ^ 31 <= MemberSize < 2 ^ 31 ->
  At' = At + inlineLen buf Hdr
  /\ sz = int32 (MemberSize - inlineLen buf Hdr).
Proof.
  unfold decodeName, inlineLen. intros H HM.
  destruct (Ascii.eqb (byteAt buf (Hdr + 0)) "#") eqn:E0; cbn [andb].
  - destruct (Ascii.eqb (byteAt buf (Hdr + 1)) "1") eqn:E1; cbn [andb] in *.
    + destruct (Ascii.eqb (byteAt buf (Hdr + 2)) "/") eqn:E2; cbn [andb] in *.
      * destruct (isdigit (byteAt buf (Hdr + 3))); simplify_eq; done.
      * simplify_eq. rewrite Z.sub_0_r, int32_small by lia. split; [lia|done].
    + simplify_eq. rewrite Z.sub_0_r, int32_small by lia. split; [lia|done].
  - repeat case_match; simplify_eq;
      rewrite Z.sub_0_r, int32_small by lia; (split; [lia|done]).
Qed.

Lemma inlineLen_range buf At : 0 <= inlineLen buf At < 2 ^ 32.
Proof.
  unfold inlineLen. case_match; [apply u32_range|lia].
Qed.

(** The end of a payload lies at least a header after the start of the
    header, when the size field is not negative. *)
Lemma memberEnd_ge buf At :
  0 <= atoi (bytesAt buf (At + off_size)) -> At + sizeofHeader <= memberEnd buf At.
Proof.
  intros H0. unfold memberEnd. cbv zeta.
  pose proof (atoi_range (bytesAt buf (At + off_size))).
  pose proof (inlineLen_range buf At).
  rewrite int32_sub by lia. case_match; lia.
Qed.

(** Unless an inline name is longer than 2^31 bytes, the payload ends where
    the size field says. *)
Lemma memberEnd_plain buf At :
  0 <= atoi (bytesAt buf (At + off_size)) ->
  inlineLen buf At <= 2 ^ 31 ->
  memberEnd buf At = At + sizeofHeader + atoi (bytesAt buf (At + off_size)).
Proof.
  intros H0 Hlen. unfold memberEnd. cbv zeta.
  pose proof (atoi_range (bytesAt buf (At + off_size))).
  pose proof (inlineLen_range buf At).
  rewrite int32_sub by lia.
  destruct (Z.ltb_spec (atoi (bytesAt buf (At + off_size)) + 2 ^ 31)
                       (inlineLen buf At)); lia.
Qed.

(** A decoded member: the cursor is left at its payload, after the header
    and the inline name and inside the file; the size field is not negative
    and fits before [End]; payload and reported size together end at
    [memberEnd]. *)
Lemma parseMemberHeader_ok buf strtab At End mbr At' :
  parseMemberHeader C buf strtab At End = ParseOk mbr At' ->
  At' = data mbr
  /\ 0 <= atoi (bytesAt buf (At + off_size))
  /\ data mbr + Size mbr = memberEnd buf At
  /\ At + sizeofHeader <= memberEnd buf At
  /\ data mbr = At + sizeofHeader + inlineLen buf At
  /\ data mbr <= End
  /\ At + sizeofHeader + atoi (bytesAt buf (At + off_size)) <= End
  /\ At + sizeofHeader < End.
Proof.
  unfold parseMemberHeader. intros H.
  destruct (Z.geb_spec (At + sizeofHeader) End); [done|].
  destruct (Z.ltb_spec (atoi (bytesAt buf (At + off_size))) 0); [done|].
  destruct (Z.gtb_spec (At + sizeofHeader + atoi (bytesAt buf (At + off_size))) End);
    [done|].
  destruct (checkMemberSignature buf At); [|done]. simpl in H.
  destruct (decodeName _ _ _ _ _) as [msg|[[[p At1] sz] fl]] eqn:E; [done|].
  destruct (Z.gtb_spec At1 End); [done|].
  apply decodeName_extent in E as [-> ->]; [|apply atoi_range].
  simplify_eq. cbn [data Size].
  pose proof (memberEnd_ge buf At ltac:(done)).
  unfold memberEnd in *. cbv zeta in *. repeat split; lia.
Qed.



(** The cursor after a payload: the end of the payload, moved to the next
    even address. *)
Lemma skipPayload_spec a At mbr :
  let e := At + getSize mbr in
  skipPayload a At mbr = (if Z.odd (baseAddr a + e) then e + 1 else e)
  /\ Z.even (baseAddr a + skipPayload a At mbr) = true.
Proof.
  unfold skipPayload. cbv zeta. rewrite land_1_odd.
  destruct (Z.odd (baseAddr a + (At + getSize mbr))) eqn:E; split; auto.
  - replace (baseAddr a + (At + getSize mbr + 1))
      with (Z.succ (baseAddr a + (At + getSize mbr))) by lia.
    by rewrite Z.even_succ.
  - by rewrite <- Z.negb_odd, E.
Qed.

Lemma skipPayload_ge a At mbr : At + getSize mbr <= skipPayload a At mbr.
Proof.
  destruct (skipPayload_spec a At mbr) as [-> _]. case_match; lia.
Qed.

Lemma loaderFrame_refl a : loaderFrame a a.
Proof. unfold loaderFrame. auto 10. Qed.

Lemma loaderFrame_buffer a a' : loaderFrame a a' -> buffer a' = buffer a.
Proof. intros (H & _). unfold buffer. by rewrite H. Qed.

Lemma loaderFrame_trans a b c :
  loaderFrame a b -> loaderFrame b c -> loaderFrame a c.
Proof.
  intros Hab Hbc. pose proof (loaderFrame_buffer _ _ Hab) as Hbuf.
  destruct Hab as (A1 & A2 & A3 & A4 & A5 & A6 & A7).
  destruct Hbc as (B1 & B2 & B3 & B4 & B5 & B6 & B7).
  unfold loaderFrame. repeat split; try congruence.
  destruct B7 as [B7|(p & n & B7)].
  - rewrite B7. exact A7.
  - right. exists p, n. by rewrite B7, Hbuf.
Qed.

Lemma loadArchive_body_spec Save found a :
  match loadArchive_body C Save found a with
  | Continue (At, _) a' =>
      loaderFrame a a'
      /\ exists mbr,
           parseMemberHeader C (buffer a) (strtab a) Save (getBufferEnd a)
           = ParseOk mbr (data mbr)
           /\ At = skipPayload a (data mbr) mbr
  | Fail msg a' => a' = a
  | Crash =>
      parseMemberHeader C (buffer a) (strtab a) Save (getBufferEnd a) = ParseAssert
      \/ parseMemberHeader C (buffer a) (strtab a) Save (getBufferEnd a)
         = ParseOutOfBounds
  end.
Proof.
  unfold loadArchive_body.
  destruct (parseMemberHeader C _ _ _ _) as [mbr At| | |] eqn:E;
    [|done|by left|by right].
  destruct (parseMemberHeader_ok _ _ _ _ _ _ E) as (-> & _).
  assert (frame_strtab : forall p n,
             loaderFrame a (set_strtab (bytesRange (buffer a) p n) a)).
  { intros p n. unfold loaderFrame. cbn. repeat split; eauto. }
  repeat case_match; simplify_eq; (split; [|eauto]);
    auto using loaderFrame_refl.
  - unfold loaderFrame. cbn. repeat split; auto.
  - unfold loaderFrame. cbn. repeat split; auto.
Qed.

Lemma loadArchive_body_progress Save found a At found' a' :
  loadArchive_body C Save found a = Continue (At, found') a' ->
  Save < At /\ getBufferEnd a' = getBufferEnd a.
Proof.
  intros H. pose proof (loadArchive_body_spec Save found a) as Hs.
  rewrite H in Hs. destruct Hs as (Hf & mbr & Hp & ->).
  apply parseMemberHeader_ok in Hp as (_ & H0 & Hsum & Hge & _).
  pose proof (skipPayload_ge a (data mbr) mbr). unfold getSize in *.
  split; [unfold sizeofHeader in *; lia|].
  unfold getBufferEnd, getBufferSize. by rewrite (loaderFrame_buffer _ _ Hf).
Qed.


Lemma loadArchive_loop_frame fuel At found a r a' :
  loadArchive_loop C fuel At found a = Returned r a' -> loaderFrame a a'.
Proof.
  revert At found a. induction fuel as [|fuel IH]; intros At found a H; simpl in H.
  - simplify_eq. apply loaderFrame_refl.
  - destruct (At <? getBufferEnd a); [|simplify_eq; apply loaderFrame_refl].
    pose proof (loadArchive_body_spec At found a) as Hs.
    destruct (loadArchive_body C At found a) as [[At' found'] a1|msg a1|]; [| |done].
    + destruct Hs as [Hf _]. eapply loaderFrame_trans; eauto.
    + simplify_eq. apply loaderFrame_refl.
Qed.

Lemma loaded_refl a : loaded C a a.
Proof.
  split; [|by left]. exists []. split; [by rewrite app_nil_r|constructor].
Qed.

Lemma loaded_trans a b c :
  buffer b = buffer a -> loaded C a b -> loaded C b c -> loaded C a c.
Proof.
  intros Hbuf [(n1 & M1 & F1) S1] [(n2 & M2 & F2) S2].
  assert (Hdec : forall mbr, decodedIn C b mbr -> decodedIn C a mbr).
  { intros mbr (st & At & Hp). exists st, At.
    unfold getBufferEnd, getBufferSize in *. by rewrite <- Hbuf. }
  split.
  - exists (n1 ++ n2). split; [by rewrite M2, M1, app_assoc|].
    apply Forall_app. split; [done|]. eapply Forall_impl; [exact F2|exact Hdec].
  - destruct S2 as [S2|(mbr & D & I & S2)].
    + by rewrite S2.
    + right. exists mbr. split; [by apply Hdec|]. split; [done|].
      rewrite S2. unfold payload. by rewrite Hbuf.
Qed.

Lemma loadArchive_body_loaded Save found a At found' a' :
  loadArchive_body C Save found a = Continue (At, found') a' -> loaded C a a'.
Proof.
  unfold loadArchive_body. intros H.
  destruct (parseMemberHeader C _ _ _ _) as [mbr At1| | |] eqn:E; [|done..].
  destruct (parseMemberHeader_ok _ _ _ _ _ _ E) as (-> & _).
  assert (Hdec : decodedIn C a mbr) by (unfold decodedIn; eauto).
  destruct (isSVR4SymbolTable mbr || isBSD4SymbolTable mbr).
  { simplify_eq. apply loaded_refl. }
  destruct (isStringTable mbr) eqn:Est.
  { simplify_eq. split.
    - exists []. split; [by rewrite app_nil_r|constructor].
    - right. exists mbr. done. }
  simplify_eq. split; [|by left; destruct found].
  exists [mbr]. split; [by destruct found|]. by repeat constructor.
Qed.

Lemma loadArchive_loop_loaded fuel At found a r a' :
  loadArchive_loop C fuel At found a = Returned r a' -> loaded C a a'.
Proof.
  revert At found a. induction fuel as [|fuel IH]; intros At found a H; simpl in H.
  - simplify_eq. apply loaded_refl.
  - destruct (At <? getBufferEnd a); [|simplify_eq; apply loaded_refl].
    pose proof (loadArchive_body_spec At found a) as Hs.
    destruct (loadArchive_body C At found a) as [[At' found'] a1|msg a1|] eqn:E;
      [| |done].
    + destruct Hs as [Hf _]. apply loadArchive_body_loaded in E.
      eapply loaded_trans; [exact (loaderFrame_buffer _ _ Hf)|exact E|eauto].
    + simplify_eq. apply loaded_refl.
Qed.

Lemma scanned_skipPayload a strtab start At mbr At1 :
  parseMemberHeader C (buffer a) strtab At (getBufferEnd a) = ParseOk mbr At1 ->
  scanned (baseAddr a) (buffer a) start At ->
  scanned (baseAddr a) (buffer a) start (skipPayload a At1 mbr).
Proof.
  intros Hp Hs. apply parseMemberHeader_ok in Hp as (-> & _ & Hsum & _).
  destruct (skipPayload_spec a (data mbr) mbr) as [-> _]. unfold getSize.
  rewrite Hsum. by apply scanned_next.
Qed.



End ScanFacts.

(** ** The symbol table *)

Lemma lookup_std_insert `{Countable K} {V} (k k' : K) (v : V) (m : gmap K V) :
  std_insert k v m !! k'
  = match m !! k' with
    | Some o => Some o
    | None => if decide (k = k') then Some v else None
    end.
Proof.
  unfold std_insert. destruct (m !! k) as [o|] eqn:E.
  - destruct (m !! k') eqn:E'; [done|]. case_decide; [congruence|done].
  - rewrite lookup_insert. case_decide; subst; [by rewrite E|].
    by destruct (m !! k').
Qed.

Lemma lookup_foldl_std_insert (t : gmap string Z) (syms : list string) off name :
  foldl (fun t sym => std_insert sym off t) t syms !! name
  = match t !! name with
    | Some o => Some o
    | None => if decide (name ∈ syms) then Some off else None
    end.
Proof.
  revert t. induction syms as [|s syms IH]; intros t; simpl.
  - destruct (t !! name); [done|].
    destruct (decide (name ∈ [])) as [Hin|Hin]; [|done]. by apply elem_of_nil in Hin.
  - rewrite IH, lookup_std_insert. destruct (t !! name) as [o|]; [done|].
    destruct (decide (s = name)) as [->|Hne].
    + rewrite decide_True; [done|]. by left.
    + destruct (decide (name ∈ syms)) as [Hin|Hin].
      * rewrite decide_True; [done|]. by right.
      * rewrite decide_False; [done|]. intros [->|]%elem_of_cons; done.
Qed.

Section IndexFacts.
Context (C : Collaborators).

Lemma indexFrame_refl a : indexFrame a a.
Proof. unfold indexFrame. auto 10. Qed.

Lemma indexFrame_trans a b c : indexFrame a b -> indexFrame b c -> indexFrame a c.
Proof. unfold indexFrame. intuition congruence. Qed.

Lemma indexFrame_buffer a a' : indexFrame a a' -> buffer a' = buffer a.
Proof. intros (H & _). unfold buffer. by rewrite H. Qed.

Lemma indexScans_log e a :
  e <> EvIndexScan -> indexScans (log e a) = indexScans a.
Proof.
  intros He. unfold indexScans, log. cbn [trace].
  rewrite filter_app, length_app. cbn.
  rewrite decide_False by done. simpl. lia.
Qed.

(** One turn of the scan.  The symbol table gains the symbols of a bitcode
    member, each under the member's relative offset unless the symbol is
    there already. *)
Lemma indexMember_spec At a :
  match indexMember C At a with
  | Continue At' a' =>
      indexFrame a a'
      /\ exists mbr,
           parseMemberHeader C (buffer a) (strtab a) At (getBufferEnd a)
           = ParseOk mbr (data mbr)
           /\ At' = skipPayload a (data mbr) mbr
           /\ forall name,
                symTab a' !! name
                = match symTab a !! name with
                  | Some off => Some off
                  | None =>
                      if isBitcode mbr then
                        match GetBitcodeSymbols C (payload a mbr) with
                        | inr symbols =>
                            if decide (name ∈ symbols)
                            then Some (u32 (At - firstFileOffset a)) else None
                        | inl _ => None
                        end
                      else None
                  end
  | Fail msg a' => indexFrame a a' /\ symTab a' = symTab a
  | Crash =>
      parseMemberHeader C (buffer a) (strtab a) At (getBufferEnd a) = ParseAssert
      \/ parseMemberHeader C (buffer a) (strtab a) At (getBufferEnd a)
         = ParseOutOfBounds
  end.
Proof.
  unfold indexMember.
  destruct (parseMemberHeader C _ _ _ _) as [mbr At1| | |] eqn:E;
    [|auto using indexFrame_refl|by left|by right].
  destruct (parseMemberHeader_ok _ _ _ _ _ _ _ E) as (-> & _).
  assert (Hlog : forall e, e <> EvIndexScan -> indexFrame a (log e a)).
  { intros e He. unfold indexFrame. rewrite indexScans_log by done. cbn. auto 10. }
  destruct (isBitcode mbr) eqn:Ebc.
  - change (buffer (log (EvGetBitcodeSymbols (data mbr)) a)) with (buffer a).
    change (bytesRange (buffer a) (data mbr) (getSize mbr)) with (payload a mbr).
    destruct (GetBitcodeSymbols C (payload a mbr)) as [msg|symbols] eqn:Eg.
    + split; [by apply Hlog|done].
    + cbn. split.
      * eapply indexFrame_trans; [by apply (Hlog (EvGetBitcodeSymbols (data mbr)))|].
        unfold indexFrame, indexScans. cbn. auto 10.
      * exists mbr. split; [done|]. split; [reflexivity|].
        intros name. by rewrite lookup_foldl_std_insert, Ebc, Eg.
  - split; [apply indexFrame_refl|]. exists mbr.
    split; [done|]. split; [done|].
    intros name. rewrite Ebc. by destruct (symTab a !! name).
Qed.

Lemma indexMember_progress At a At' a' :
  indexMember C At a = Continue At' a' ->
  At < At' /\ getBufferEnd a' = getBufferEnd a.
Proof.
  intros H. pose proof (indexMember_spec At a) as Hs.
  rewrite H in Hs. destruct Hs as (Hf & mbr & Hp & -> & _).
  apply parseMemberHeader_ok in Hp as (_ & H0 & Hsum & Hge & _).
  pose proof (skipPayload_ge a (data mbr) mbr). unfold getSize in *.
  split; [unfold sizeofHeader in *; lia|].
  unfold getBufferEnd, getBufferSize. by rewrite (indexFrame_buffer _ _ Hf).
Qed.


Lemma indexLoop_frame fuel At a r a' :
  indexLoop C fuel At a = Returned r a' -> indexFrame a a'.
Proof.
  revert At a. induction fuel as [|fuel IH]; intros At a H; simpl in H.
  - simplify_eq. apply indexFrame_refl.
  - destruct (At <? getBufferEnd a); [|simplify_eq; apply indexFrame_refl].
    pose proof (indexMember_spec At a) as Hs.
    destruct (indexMember C At a) as [At' a1|msg a1|]; [| |done].
    + destruct Hs as [Hf _]. eapply indexFrame_trans; eauto.
    + by destruct Hs as [Hf _]; simplify_eq.
Qed.


(** The scan caches the module of a bitcode member under the member's
    offset relative to [firstFileOffset]. *)
Lemma indexMember_cache_key At a At' a' :
  indexMember C At a = Continue At' a' ->
  modules a' = modules a
  \/ exists mbr,
       modules a'
       = std_insert (u32 (At - firstFileOffset a)) (nextModule a, mbr) (modules a).
Proof.
  unfold indexMember, newModule. intros H.
  repeat case_match; simplify_eq; cbn; eauto.
Qed.

(** C1, as the code has it.  While the symbol table is built, a member
    that defines a name enters it under its own relative offset only when
    the name is not in the table yet; an entry that is there is kept by
    the members scanned later and by the rest of the scan.  When two
    members define one name, the name stays with the member scanned
    first. *)
Theorem index_first_member_wins :
  (forall At a At' a' name off,
      indexMember C At a = Continue At' a' ->
      symTab a !! name = Some off -> symTab a' !! name = Some off)
  /\ (forall At a At' a' mbr symbols name,
        indexMember C At a = Continue At' a' ->
        parseMemberHeader C (buffer a) (strtab a) At (getBufferEnd a)
        = ParseOk mbr (data mbr) ->
        isBitcode mbr = true ->
        GetBitcodeSymbols C (payload a mbr) = inr symbols ->
        name ∈ symbols -> symTab a !! name = None ->
        symTab a' !! name = Some (u32 (At - firstFileOffset a)))
  /\ (forall fuel At a r a' name off,
        indexLoop C fuel At a = Returned r a' ->
        symTab a !! name = Some off -> symTab a' !! name = Some off).
Proof.
  assert (Hturn : forall At a At' a' name off,
             indexMember C At a = Continue At' a' ->
             symTab a !! name = Some off -> symTab a' !! name = Some off).
  { intros At a At' a' name off H Hin.
    pose proof (indexMember_spec At a) as Hs. rewrite H in Hs.
    destruct Hs as (_ & mbr & _ & _ & Hsym). by rewrite Hsym, Hin. }
  split; [exact Hturn|]. split.
  - intros At a At' a' mbr symbols name H Hp Hbc Hg Hin Hnone.
    pose proof (indexMember_spec At a) as Hs. rewrite H in Hs.
    destruct Hs as (_ & mbr' & Hp' & _ & Hsym).
    rewrite Hp in Hp'. simplify_eq.
    rewrite Hsym, Hnone, Hbc, Hg. by rewrite decide_True.
  - induction fuel as [|fuel IH]; intros At a r a' name off H Hin; simpl in H.
    + by simplify_eq.
    + destruct (At <? getBufferEnd a); [|by simplify_eq].
      pose proof (indexMember_spec At a) as Hs.
      destruct (indexMember C At a) as [At1 a1|msg a1|] eqn:E; [| |done].
      * eapply IH; eauto.
      * destruct Hs as [_ Hs]. simplify_eq. by rewrite Hs.
Qed.
End IndexFacts.

(** ** The loaders *)

Section LoaderFacts.
Context (C : Collaborators).

(** C6, as the code has it.  After a member is scanned, by the full loader
    or by the scan that builds the symbol table, the cursor for the next
    header is the end of the payload ([payload_start + size]) moved to the
    next even address.  Every header after the first therefore starts at an
    even address, and at an even offset when the file is mapped at an even
    address.  When the payload itself starts at an even address (any name
    encoding but an inline name of odd length), the cursor is
    [payload_start + size + 1] for an odd size and [payload_start + size]
    for an even one. *)
Theorem next_header_cursor a At At' :
  (exists found found' a', loadArchive_body C At found a = Continue (At', found') a')
  \/ (exists a', indexMember C At a = Continue At' a') ->
  exists mbr,
    parseMemberHeader C (buffer a) (strtab a) At (getBufferEnd a)
    = ParseOk mbr (data mbr)
    /\ let payload_end := data mbr + Size mbr in
       At' = (if Z.odd (baseAddr a + payload_end) then payload_end + 1 else payload_end)
       /\ Z.even (baseAddr a + At') = true
       /\ (Z.even (baseAddr a) = true -> Z.even At' = true)
       /\ (Z.even (baseAddr a + data mbr) = true ->
           At' = if Z.odd (Size mbr) then payload_end + 1 else payload_end).
Proof.
  intros H.
  assert (exists mbr,
             parseMemberHeader C (buffer a) (strtab a) At (getBufferEnd a)
             = ParseOk mbr (data mbr)
             /\ At' = skipPayload a (data mbr) mbr) as (mbr & Hp & ->).
  { destruct H as [(found & found' & a' & H)|(a' & H)].
    - pose proof (loadArchive_body_spec C At found a) as Hs. rewrite H in Hs.
      destruct Hs as (_ & mbr & Hp & ->). eauto.
    - pose proof (indexMember_spec C At a) as Hs. rewrite H in Hs.
      destruct Hs as (_ & mbr & Hp & -> & _). eauto. }
  exists mbr. split; [done|]. cbv zeta.
  destruct (skipPayload_spec a (data mbr) mbr) as [Hskip Heven].
  unfold getSize in *. split; [done|]. split; [done|]. split.
  - intros Hbase. rewrite Z.even_add, Hbase in Heven.
    by destruct (Z.even (skipPayload a (data mbr) mbr)).
  - intros Hdata. rewrite Hskip.
    rewrite Z.add_assoc, Z.odd_add, <- Z.negb_even, Hdata. done.
Qed.

(** C5, as the code has it.  A full load starts from an empty member list
    and an empty symbol table whatever they held before: when it returns,
    the symbol table is empty and the member list holds members that this
    load decoded from the file, and nothing else.  The string table is not
    cleared: afterwards it is what it was before the load, unless the load
    came to a string-table member and copied its payload. *)
Theorem loadArchive_resets a :
  (forall ms st, loadArchive C (set_symTab st (set_members ms a)) = loadArchive C a)
  /\ (forall r a',
        loadArchive C a = Returned r a' ->
        symTab a' = ∅
        /\ Forall (decodedIn C a) (members a')
        /\ (strtab a' = strtab a
            \/ exists mbr,
                 decodedIn C a mbr /\ isStringTable mbr = true
                 /\ strtab a' = payload a mbr)).
Proof.
  split; [done|]. intros r a' H. unfold loadArchive in H.
  set (a0 := set_symTab ∅ (set_members [] a)) in *.
  assert (loaderFrame a0 a' /\ loaded C a0 a') as [Hf Hl].
  { destruct (isMapped a0); [|done]. destruct (checkSignature a0); simpl in H.
    - split; [by eapply loadArchive_loop_frame|by eapply loadArchive_loop_loaded].
    - simplify_eq. split; [apply loaderFrame_refl|apply loaded_refl]. }
  destruct Hf as (_ & _ & Hsym & _).
  destruct Hl as [(new & Hnew & Hdec) Hstr].
  split; [done|]. split; [by rewrite Hnew|done].
Qed.

Lemma loadArchive_frame a r a' :
  loadArchive C a = Returned r a' ->
  mapfile a' = mapfile a /\ symTab a' = ∅ /\ trace a' = trace a.
Proof.
  intros H. unfold loadArchive in H.
  set (a0 := set_symTab ∅ (set_members [] a)) in *.
  assert (Hf : loaderFrame a0 a').
  { destruct (isMapped a0); [|done]. destruct (checkSignature a0); simpl in H.
    - by apply loadArchive_loop_frame in H.
    - simplify_eq. apply loaderFrame_refl. }
  destruct Hf as (Hm & _ & Hsym & _ & _ & Ht & _). done.
Qed.


(** The anchor loader changes the member list, the string table and
    [firstFileOffset] only. *)
Lemma loadSymbolTable_frame a r a' :
  loadSymbolTable C a = Returned r a' ->
  mapfile a' = mapfile a /\ baseAddr a' = baseAddr a /\ symTab a' = symTab a
  /\ modules a' = modules a /\ nextModule a' = nextModule a
  /\ trace a' = trace a.
Proof.
  unfold loadSymbolTable. intros H.
  repeat case_match; simplify_eq; cbn; auto 10.
Qed.

End LoaderFacts.

(** ** Resolution and the detector *)

Section ResolverFacts.
Context (C : Collaborators).

Lemma symTab_empty_true a : symTab_empty a = true <-> symTab a = ∅.
Proof. unfold symTab_empty. apply bool_decide_eq_true. Qed.

Lemma symTab_empty_false a : symTab_empty a = false <-> symTab a <> ∅.
Proof. unfold symTab_empty. apply bool_decide_eq_false. Qed.

Lemma symTab_size_zero a : (size (symTab a) =? 0)%nat = symTab_empty a.
Proof.
  unfold symTab_empty. destruct (Nat.eqb_spec (size (symTab a)) 0) as [E|E].
  - apply map_size_empty_inv in E. by rewrite bool_decide_eq_true_2.
  - rewrite bool_decide_eq_false_2; [done|]. intros E'. apply E.
    rewrite E'. apply map_size_empty.
Qed.

Lemma findModuleDefiningSymbol_frame symbol a r a' :
  findModuleDefiningSymbol C symbol a = Returned r a' ->
  symTab a' = symTab a /\ indexScans a' = indexScans a.
Proof.
  unfold findModuleDefiningSymbol, newModule. intros H.
  repeat case_match; simplify_eq; cbn; auto;
    (split; [done|]); unfold indexScans; cbn;
    rewrite ?filter_app, ?length_app; cbn;
    rewrite ?decide_False by done; simpl; lia.
Qed.

(** A look-up caches the module it loads under the absolute offset, the
    symbol's entry plus [firstFileOffset]. *)
Lemma findModuleDefiningSymbol_cache_key symbol a r a' :
  findModuleDefiningSymbol C symbol a = Returned r a' ->
  modules a' = modules a
  \/ exists second mbr,
       symTab a !! symbol = Some second
       /\ modules a'
          = std_insert (u32 (second + firstFileOffset a)) (nextModule a, mbr) (modules a).
Proof.
  unfold findModuleDefiningSymbol, newModule. intros H.
  repeat case_match; simplify_eq; cbn; eauto.
Qed.

Lemma resolveLoop_frame symbols Added result error a r a' :
  resolveLoop C symbols Added result error a = Returned r a' ->
  symTab a' = symTab a /\ indexScans a' = indexScans a.
Proof.
  revert Added result error a r a'.
  induction symbols as [|sym symbols IH]; intros Added result error a r a' H;
    simpl in H; [by simplify_eq|].
  destruct (findModuleDefiningSymbol C sym a) as [l a1|] eqn:E; [|done].
  apply findModuleDefiningSymbol_frame in E as [E1 E2].
  assert (Hkeep : forall o, keepSymbol sym o = Returned r a' ->
                            exists r', o = Returned r' a').
  { intros [r' a2|]; simpl; intros; simplify_eq; eauto. }
  destruct l as [m| |msg].
  - destruct (decide (m ∈ Added)).
    + apply Hkeep in H as [r' H]. apply IH in H as [-> ->]. done.
    + apply IH in H as [-> ->]. done.
  - apply Hkeep in H as [r' H]. apply IH in H as [-> ->]. done.
  - apply Hkeep in H as [r' H]. apply IH in H as [-> ->]. done.
Qed.

(** With a symbol table that is not empty, a multi-symbol resolution goes
    straight to the look-ups. *)
Lemma findModulesDefiningSymbols_indexed symbols result a r a' :
  symTab a <> ∅ ->
  findModulesDefiningSymbols C symbols result a = Returned r a' ->
  symTab a' = symTab a /\ indexScans a' = indexScans a.
Proof.
  intros Hne H. unfold findModulesDefiningSymbols in H.
  apply symTab_empty_false in Hne. rewrite Hne in H.
  destruct (mapfile a); [|by simplify_eq].
  destruct (resolveLoop C symbols ∅ result None a) as [r1 a1|] eqn:E; [|done].
  simplify_eq. by apply resolveLoop_frame in E.
Qed.

Lemma isBitcodeArchive_indexed a :
  symTab a <> ∅ -> isBitcodeArchive C a = Returned true a.
Proof.
  intros Hne. unfold isBitcodeArchive.
  apply symTab_empty_false in Hne. rewrite Hne. cbv iota.
  by rewrite symTab_size_zero, Hne.
Qed.

(** C4, as the code has it.  Once the symbol table is not empty, no
    sequence of multi-symbol resolutions and detector calls starts the scan
    again or changes the symbol table. *)
Theorem symbol_table_built_once ops a a' :
  symTab a <> ∅ ->
  performAll C ops a = Some a' ->
  symTab a' = symTab a /\ indexScans a' = indexScans a.
Proof.
  revert a. induction ops as [|op ops IH]; intros a Hne H; simpl in H.
  - by simplify_eq.
  - destruct (perform C op a) as [a1|] eqn:E; [|done].
    assert (symTab a1 = symTab a /\ indexScans a1 = indexScans a) as [E1 E2].
    { destruct op as [symbols result|]; simpl in E.
      - destruct (findModulesDefiningSymbols C symbols result a) as [r a2|] eqn:E';
          [|done].
        simplify_eq. by eapply findModulesDefiningSymbols_indexed.
      - rewrite isBitcodeArchive_indexed in E by done. by simplify_eq. }
    rewrite <- E1, <- E2. apply IH; [by rewrite E1|done].
Qed.

(** The detector never puts anything in the symbol table. *)
Lemma isBitcodeArchive_symTab a b a' :
  symTab a = ∅ -> isBitcodeArchive C a = Returned b a' -> symTab a' = ∅.
Proof.
  intros He H. unfold isBitcodeArchive in H.
  apply symTab_empty_true in He as Hb. rewrite Hb in H.
  destruct (loadSymbolTable C a) as [s a1|] eqn:E1; [|done].
  apply loadSymbolTable_frame in E1 as (_ & _ & Hs1 & _).
  destruct s; [|simplify_eq; congruence].
  rewrite symTab_size_zero in H.
  assert (Hb1 : symTab_empty a1 = true) by (apply symTab_empty_true; congruence).
  rewrite Hb1 in H. simpl in H.
  destruct (loadArchive C a1) as [s a2|] eqn:E2; [|done].
  apply loadArchive_frame in E2 as (_ & Hs2 & _).
  destruct s; [|by simplify_eq].
  destruct (find isBitcode (members a2)); by simplify_eq.
Qed.

End ResolverFacts.

(** ** The example archives *)



(** C1 at [twoDefiners]: with "f" already in the table under offset 0, the
    scan from the second member leaves it there. *)
Lemma index_first_member_wins_witness :
  let a := set_symTab {[ "f"%string := 0 ]}
             (set_firstFileOffset 8 (openArchive twoDefiners)) in
  exists r a',
    indexLoop toyReader 66 74 a = Returned r a'
    /\ symTab a' !! "f"%string = Some 0.
Proof.
  intros a. do 2 eexists. split; [evaluate; reflexivity|].
  eapply (proj2 (proj2 (index_first_member_wins toyReader)) 66%nat 74 a).
  - evaluate. reflexivity.
  - vm_compute. reflexivity.
Defined.

(** C1 as stated fails: both members of [twoDefiners] define "f"; the scan
    caches them under the relative offsets 0 and 66, and "f" is keyed to 0,
    the member scanned first, not to 66. *)
Lemma later_definer_does_not_win :
  GetBitcodeSymbols toyReader (bytesRange twoDefiners 68 6) = inr ["f"; "g"]%string
  /\ GetBitcodeSymbols toyReader (bytesRange twoDefiners 134 5) = inr ["f"]%string
  /\ match OpenAndLoadSymbols toyReader twoDefiners with
     | Some a0 =>
         match buildSymbolTable toyReader a0 with
         | Returned OK a1 =>
             is_Some (modules a1 !! 0) /\ is_Some (modules a1 !! 66)
             /\ symTab a1 !! "f"%string = Some 0
             /\ symTab a1 !! "f"%string <> Some 66
         | _ => False
         end
     | None => False
     end.
Proof.
  vm_compute. repeat split; eauto; discriminate.
Qed.

(** C2 at [twoDefiners].  The first ordinary member is at byte 8.  The scan
    caches [foo.bc] (header at 8) under key 0 and [bar.bc] (header at 74)
    under key 66; nothing is cached under 8 or 74.  The look-up of "f"
    therefore misses the cache, loads [foo.bc] a second time and caches that
    second module under 8. *)
Lemma indexer_caches_under_relative_offset :
  match OpenAndLoadSymbols toyReader twoDefiners with
  | Some a0 =>
      firstFileOffset a0 = 8
      /\ match buildSymbolTable toyReader a0 with
         | Returned OK a1 =>
             (modules a1 !! 0 ≫= fun e => Some (fst e, data (snd e))) = Some (0%nat, 68)
             /\ (modules a1 !! 66 ≫= fun e => Some (fst e, data (snd e))) = Some (1%nat, 134)
             /\ modules a1 !! 8 = None /\ modules a1 !! 74 = None
             /\ match findModuleDefiningSymbol toyReader "f" a1 with
                | Returned _ a2 =>
                    (modules a2 !! 8 ≫= fun e => Some (fst e, data (snd e)))
                    = Some (2%nat, 68)
                    /\ trace a2 = [EvIndexScan; EvGetBitcodeSymbols 68;
                                   EvGetBitcodeSymbols 134; EvGetLazyBitcodeModule 68]
                | Crashed => False
                end
         | _ => False
         end
  | None => False
  end.
Proof.
  vm_compute. repeat split.
Qed.

(** C3 at [threeSymbols].  "f", "g" and "h" are all defined by [foo.bc];
    "i" is defined nowhere.  The call returns [true] with one module in the
    result and leaves "f", "h" and "i" in the set: the look-up of "f" loads
    the module and returns a null pointer, the look-up of "g" returns the
    module, which is added, and the look-up of "h" returns the same module,
    which is skipped together with the removal of "h". *)
Lemma resolved_name_stays_in_set :
  match OpenAndLoadSymbols toyReader threeSymbols with
  | Some a0 =>
      match findModulesDefiningSymbols toyReader ["f"; "g"; "h"; "i"]%string [] a0 with
      | Returned (true, r) a1 =>
          result r = [1%nat] /\ symbols_left r = ["f"; "h"; "i"]%string
          /\ findModuleDefiningSymbol toyReader "f" a1 = Returned (Found 1%nat) a1
          /\ findModuleDefiningSymbol toyReader "h" a1 = Returned (Found 1%nat) a1
          /\ findModuleDefiningSymbol toyReader "i" a1 = Returned Null a1
      | _ => False
      end
  | None => False
  end.
Proof.
  vm_compute. repeat split.
Qed.

(** C4 at [twoDefiners], with "f" in the table. *)
Lemma symbol_table_built_once_witness :
  let a := set_symTab {[ "f"%string := 0 ]}
             (set_firstFileOffset 8 (openArchive twoDefiners)) in
  exists a',
    performAll toyReader [IsBitcodeArchive; FindModules ["f"; "h"]%string []] a = Some a'
    /\ symTab a' = symTab a /\ indexScans a' = indexScans a.
Proof.
  intros a. eexists. split; [evaluate; reflexivity|].
  apply (symbol_table_built_once toyReader
           [IsBitcodeArchive; FindModules ["f"; "h"]%string []] a).
  - vm_compute. discriminate.
  - evaluate. reflexivity.
Defined.

(** C4 as stated fails: [plainMember] holds no bitcode, so the scan succeeds
    and builds an empty table; the next resolution starts the scan again. *)
Lemma empty_index_is_scanned_again :
  match OpenAndLoadSymbols toyReader plainMember with
  | Some a0 =>
      match findModulesDefiningSymbols toyReader [] [] a0 with
      | Returned (true, _) a1 =>
          indexScans a1 = 1%nat
          /\ match performAll toyReader [FindModules [] []] a1 with
             | Some a2 => indexScans a2 = 2%nat
             | None => False
             end
      | _ => False
      end
  | None => False
  end.
Proof.
  vm_compute. repeat split.
Qed.

(** C5 at [tableAfterMember], loaded a second time. *)
Lemma loadArchive_resets_witness :
  let a := default (openArchive []) (OpenAndLoad toyReader tableAfterMember) in
  exists r a',
    loadArchive toyReader a = Returned r a'
    /\ symTab a' = ∅
    /\ Forall (decodedIn toyReader a) (members a')
    /\ (strtab a' = strtab a
        \/ exists mbr,
             decodedIn toyReader a mbr /\ isStringTable mbr = true
             /\ strtab a' = payload a mbr).
Proof.
  intros a. do 2 eexists. split; [evaluate; reflexivity|].
  eapply (proj2 (loadArchive_resets toyReader a)).
  evaluate. reflexivity.
Defined.

(** C5 as stated fails.  [OpenAndLoad] of [tableAfterMember] leaves the
    archive with the string table of the file and two members.  A second
    full load of that archive empties the member list and the symbol table
    and enters its loop with the string table of the first load in place;
    after the first turn of the loop, which decodes [foo.o], the member list
    holds that one member and the string table is still the old one. *)
Lemma second_load_scans_with_old_string_table :
  match OpenAndLoad toyReader tableAfterMember with
  | Some a1 =>
      let old := list_ascii_of_string "verylongfilename.o/" ++ [LF] in
      let begun := set_symTab ∅ (set_members [] a1) in
      strtab a1 = old /\ length (members a1) = 2%nat
      /\ loadArchive toyReader a1
         = loadArchive_loop toyReader (Z.to_nat (getBufferEnd a1 - 8)) 8 false begun
      /\ members begun = [] /\ symTab begun = ∅ /\ strtab begun = old
      /\ match loadArchive_body toyReader 8 false begun with
         | Continue (At, _) a2 =>
             At = 72 /\ map path (members a2) = [list_ascii_of_string "foo.o"]
             /\ strtab a2 = old
         | _ => False
         end
  | None => False
  end.
Proof.
  vm_compute. repeat split.
Qed.

(** C6 at the first member of [twoDefiners]. *)
Lemma next_header_cursor_witness :
  exists mbr,
    parseMemberHeader toyReader twoDefiners [] 8 140 = ParseOk mbr (data mbr)
    /\ data mbr = 68 /\ Size mbr = 6 /\ Z.even 74 = true.
Proof.
  destruct (next_header_cursor toyReader (openArchive twoDefiners) 8 74)
    as (mbr & Hp & Hcur & _ & Heven & _).
  - left. exists false. do 2 eexists. evaluate. reflexivity.
  - exists mbr. split; [exact Hp|].
    assert (Hm : ParseOk mbr (data mbr)
                 = parseMemberHeader toyReader twoDefiners [] 8 140) by (symmetry; exact Hp).
    vm_compute in Hm. injection Hm as Hm Hd. subst mbr. repeat split.
Defined.

(** C6 as stated fails: the member of [inlineName] has the even size 4, its
    payload starts at 71, and the next header is looked for at 76, which is
    [payload_start + size + 1]. *)
Lemma inline_name_pads_even_size :
  match loadArchive_body toyReader 8 false (openArchive inlineName) with
  | Continue (At', _) a' =>
      match members a' with
      | [mbr] =>
          data mbr = 71 /\ Size mbr = 4 /\ Z.odd (Size mbr) = false
          /\ At' = data mbr + Size mbr + 1 /\ At' <> data mbr + Size mbr
      | _ => False
      end
  | _ => False
  end.
Proof.
  vm_compute. repeat split; discriminate.
Qed.



(** C8 at [twoDefiners], whose members define "f" and "g", opened with
    [OpenAndLoadSymbols].  The detector finds the symbol table empty, runs
    the anchor load, and still finds it empty; its answer comes from the
    full load and the parse of [foo.bc], and the symbol table is empty when
    it returns. *)
Lemma detector_leaves_symbol_table_empty :
  GetBitcodeSymbols toyReader (bytesRange twoDefiners 68 6) = inr ["f"; "g"]%string
  /\ match OpenAndLoadSymbols toyReader twoDefiners with
     | Some a0 =>
         symTab a0 = ∅
         /\ match loadSymbolTable toyReader a0 with
            | Returned OK a1 => symTab a1 = ∅
            | _ => False
            end
         /\ match isBitcodeArchive toyReader a0 with
            | Returned b a' =>
                b = true /\ symTab a' = ∅ /\ trace a' = [EvParseBitcodeFile 68]
            | Crashed => False
            end
     | None => False
     end.
Proof.
  vm_compute. repeat split.
Qed.




(** A short name that starts with '#' decodes to the empty path, not to the
    bytes before its first '/'. *)
Lemma hash_name_decodes_to_empty_path :
  specialEncoding (bytesRange hashName 8 16) = false
  /\ upTo "/" (bytesRange hashName 8 16) = list_ascii_of_string "#abc"
  /\ match parseMemberHeader toyReader hashName [] 8 70 with
     | ParseOk mbr _ => path mbr = []
     | _ => False
     end.
Proof.
  vm_compute. repeat split.
Qed.

(** * Further properties of the reader *)

(** ** What a decoded member satisfies *)

Section DecodedMember.
Context (C : Collaborators).

(** Where the payload of a decoded member lies, in a file of at most 2^31
    bytes: no inline name is then long enough for [MemberSize -= len] to
    leave the range of [int]. *)
Lemma parseMemberHeader_extent buf strtab At End mbr At' :
  parseMemberHeader C buf strtab At End = ParseOk mbr At' ->
  0 <= At -> End <= 2 ^ 31 ->
  At + sizeofHeader <= data mbr
  /\ payloadEnd mbr = At + sizeofHeader + atoi (bytesAt buf (At + off_size))
  /\ payloadEnd mbr <= End.
Proof.
  intros H HAt HEnd. unfold payloadEnd.
  apply parseMemberHeader_ok in H as (_ & H0 & Hsum & _ & Hdata & Hin & Hfit & _).
  pose proof (inlineLen_range buf At).
  rewrite Hsum, memberEnd_plain by (unfold sizeofHeader in *; lia).
  unfold sizeofHeader in *. lia.
Qed.

(** Whatever the encoding of the name, a member that the decoder returns
    comes from a header that lies wholly before [End] and carries the
    terminator.  The size field, read as an [int], is not negative, and the
    header's end plus the size field is at or before [End].  The cursor is
    left at the member's payload, which starts at or after the end of the
    header and at or before [End].  The member's size is what is left of the
    size field after the bytes between the header and the payload, in the
    arithmetic of [int]: payload start plus size is the header's end plus the
    size field unless an inline name exceeds the size field by more than
    2^31.  The member is flagged bitcode exactly when the magic sniffer says
    so of the first four bytes of the payload. *)
Theorem parseMemberHeader_postcondition buf strtab At End mbr At' :
  parseMemberHeader C buf strtab At End = ParseOk mbr At' ->
  let size := atoi (bytesAt buf (At + off_size)) in
  At' = data mbr
  /\ At + sizeofHeader < End
  /\ checkMemberSignature buf At = true
  /\ 0 <= size < 2 ^ 31
  /\ At + sizeofHeader + size <= End
  /\ At + sizeofHeader <= data mbr <= End
  /\ Size mbr = int32 (At + sizeofHeader + size - data mbr)
  /\ (data mbr - (At + sizeofHeader) <= size + 2 ^ 31 ->
      payloadEnd mbr = At + sizeofHeader + size)
  /\ isBitcode mbr = identify_magic C (bytesRange buf (data mbr) 4).
Proof.
  intros H size. subst size.
  pose proof (atoi_range (bytesAt buf (At + off_size))) as Hint.
  pose proof (inlineLen_range buf At) as Hlen.
  unfold parseMemberHeader, payloadEnd in *.
  destruct (Z.geb_spec (At + sizeofHeader) End); [done|].
  destruct (Z.ltb_spec (atoi (bytesAt buf (At + off_size))) 0); [done|].
  destruct (Z.gtb_spec (At + sizeofHeader + atoi (bytesAt buf (At + off_size))) End);
    [done|].
  destruct (checkMemberSignature buf At); [|done]. simpl in H.
  destruct (decodeName _ _ _ _ _) as [msg|[[[p At1] sz] fl]] eqn:E; [done|].
  destruct (Z.gtb_spec At1 End); [done|].
  apply decodeName_extent in E as [-> ->]; [|done].
  simplify_eq. cbn [data Size isBitcode flags setBitcode BitcodeFlag].
  split; [done|]. split; [done|]. split; [done|]. split; [lia|].
  split; [done|]. split; [lia|]. split; [f_equal; lia|]. split; [|done].
  intros Hshort. rewrite int32_sub by lia.
  destruct (Z.ltb_spec (atoi (bytesAt buf (At + off_size)) + 2 ^ 31)
              (inlineLen buf At)); lia.
Qed.

Lemma name_field_bytes buf p l i :
  0 <= p -> bytesRange buf p 16 = l -> length l = 16%nat -> (i < 16)%nat ->
  byteAt buf (p + Z.of_nat i) = nth i l NUL.
Proof.
  intros Hp Hl Hlen Hi. rewrite byteAt_offset by lia. rewrite Nat2Z.id.
  rewrite <- Hl. unfold bytesRange.
  change (Z.to_nat 16) with 16%nat. rewrite nth_firstn.
  by destruct (Nat.ltb_spec i 16); [|lia].
Qed.

(** A decoded member is the string table exactly when its name field is the
    string-table sentinel, an SVR4 or BSD symbol table exactly when the name
    field is the respective sentinel; in each of these cases the path is the
    sentinel itself.  The three never come together, nor with the flag for
    a long file name. *)
Theorem parseMemberHeader_classifies buf strtab At End mbr At' :
  0 <= At ->
  parseMemberHeader C buf strtab At End = ParseOk mbr At' ->
  let name16 := bytesRange buf At 16 in
  isStringTable mbr = bool_decide (name16 = ARFILE_STRTAB_NAME)
  /\ isSVR4SymbolTable mbr = bool_decide (name16 = ARFILE_SVR4_SYMTAB_NAME)
  /\ isBSD4SymbolTable mbr = bool_decide (name16 = ARFILE_BSD4_SYMTAB_NAME)
  /\ (isStringTable mbr || isSVR4SymbolTable mbr || isBSD4SymbolTable mbr = true ->
      path mbr = name16 /\ HasLongFilenameFlag (flags mbr) = false
      /\ data mbr = At + sizeofHeader).
Proof.
  intros HAt H name16. subst name16.
  assert (Hb : forall l, bytesRange buf At 16 = l -> length l = 16%nat ->
                         byteAt buf (At + 0) = nth 0 l NUL
                         /\ byteAt buf (At + 1) = nth 1 l NUL).
  { intros l Hl Hlen. split.
    - apply (name_field_bytes buf At l 0); auto; lia.
    - apply (name_field_bytes buf At l 1); auto; lia. }
  assert (H1 := fun E => Hb ARFILE_STRTAB_NAME E eq_refl).
  assert (H2 := fun E => Hb ARFILE_SVR4_SYMTAB_NAME E eq_refl).
  assert (H3 := fun E => Hb ARFILE_BSD4_SYMTAB_NAME E eq_refl).
  cbn in H1, H2, H3. clear Hb.
  unfold parseMemberHeader in H.
  destruct (At + sizeofHeader >=? End); [done|].
  destruct (atoi (bytesAt buf (At + off_size)) <? 0); [done|].
  destruct (_ >? End); [done|].
  destruct (negb _); [done|].
  destruct (decodeName _ _ _ _ _) as [msg|[[[p At1] sz] fl]] eqn:E; [done|].
  destruct (At1 >? End); [done|].
  simplify_eq.
  cbn [isStringTable isSVR4SymbolTable isBSD4SymbolTable flags path data setBitcode
       StringTableFlag SVR4SymbolTableFlag BSD4SymbolTableFlag HasLongFilenameFlag].
  unfold decodeName in E. cbv zeta in E.
  set (n16 := bytesRange buf At 16) in *.
  set (c0 := byteAt buf (At + 0)) in *. set (c1 := byteAt buf (At + 1)) in *.
  assert (Hno : forall l (b0 b1 : ascii),
             (n16 = l -> c0 = b0 /\ c1 = b1) ->
             (c0 <> b0 \/ c1 <> b1) -> false = bool_decide (n16 = l)).
  { intros l b0 b1 Hl Hne. symmetry. apply bool_decide_eq_false. intros Heq.
    destruct (Hl Heq). tauto. }
  assert (Hyes : forall l, bool_decide (n16 = l) = true -> true = bool_decide (n16 = l))
    by done.
  assert (Heqb : forall x y : ascii, Ascii.eqb x y = true -> x = y)
    by (intros x y; apply Ascii.eqb_eq).
  assert (Hneqb : forall x y : ascii, Ascii.eqb x y = false -> x <> y)
    by (intros x y; apply Ascii.eqb_neq).
  assert (Hdig : forall x : ascii, isdigit x = true ->
                   x <> "/" /\ x <> " " /\ x <> "_").
  { intros x Hx. repeat split; intros ->; discriminate Hx. }
  repeat case_match; simplify_eq;
    repeat match goal with
      | Hx : _ && _ = true |- _ => apply andb_true_iff in Hx as [? ?]
      | Hx : Ascii.eqb _ _ = true |- _ => apply Heqb in Hx
      | Hx : Ascii.eqb _ _ = false |- _ => apply Hneqb in Hx
      | Hx : isdigit _ = true |- _ => apply Hdig in Hx as (? & ? & ?)
      | Hx : bool_decide (_ = _) = true |- _ => apply bool_decide_eq_true in Hx
      end;
    cbn [orHasLongFilename orStringTable orSVR4SymbolTable orBSD4SymbolTable noFlags
         StringTableFlag SVR4SymbolTableFlag BSD4SymbolTableFlag HasLongFilenameFlag
         orb];
    (split; [|split; [|split]]);
    try (intros; done);
    try (symmetry; by apply bool_decide_eq_true);
    try (eapply (Hno _ _ _ H1); (left; congruence) || (right; congruence));
    try (eapply (Hno _ _ _ H2); (left; congruence) || (right; congruence));
    try (eapply (Hno _ _ _ H3); (left; congruence) || (right; congruence)).
  symmetry. apply bool_decide_eq_false. intros Heq.
  destruct (H3 Heq) as [Ha Hb].
  rewrite Ha, Hb, (bool_decide_eq_true_2 _ Heq) in H4. discriminate H4.
Qed.
End DecodedMember.

(** ** Names kept in the string table *)

Lemma isdigit_not_slash_or_blank d :
  isdigit d = true -> Ascii.eqb d "/" = false /\ Ascii.eqb d " " = false.
Proof.
  destruct d as [[] [] [] [] [] [] [] []]; vm_compute; intuition congruence.
Qed.

Lemma scanName_terminator name post last_c last_i i :
  LF ∉ name ->
  scanName (name ++ "/" :: LF :: post) last_c last_i i = Some (i + length name)%nat.
Proof.
  revert last_c last_i i. induction name as [|x name IH]; intros last_c last_i i Hno.
  - simpl. f_equal. lia.
  - apply not_elem_of_cons in Hno as [Hx Hno].
    cbn [app scanName]. destruct (Ascii.eqb_spec x LF) as [->|_]; [done|].
    cbn [andb]. rewrite IH by done. f_equal. simpl. lia.
Qed.

Lemma scanName_none l last_c last_i i :
  LF ∉ l -> scanName l last_c last_i i = None.
Proof.
  revert last_c last_i i. induction l as [|x l IH]; intros last_c last_i i Hno;
    [done|].
  apply not_elem_of_cons in Hno as [Hx Hno].
  cbn [scanName]. destruct (Ascii.eqb_spec x LF) as [->|_]; [done|].
  cbn [andb]. by apply IH.
Qed.

Section StringTableNames.
Context (C : Collaborators).

(** The name switch on a header whose name is a slash followed by decimal
    digits; [index] is the [unsigned] that the decoder reads from them. *)
Lemma decodeName_reference buf strtab At At1 s digits c rest :
  0 <= At ->
  bytesAt buf At = "/" :: digits ++ c :: rest ->
  digits <> [] -> Forall (fun d => isdigit d = true) digits -> isdigit c = false ->
  decodeName buf strtab At At1 s
  = let index := u32 (atoi (digits ++ c :: rest)) in
    if index <? Z.of_nat (length strtab) then
      let namep := drop (Z.to_nat index) strtab in
      match scanName namep (hd NUL namep) 0 0 with
      | Some n => inr (take n namep, At1, s, orHasLongFilename noFlags)
      | None => inl "missing name terminator in string table"%string
      end
    else inl "name index beyond string table"%string.
Proof.
  intros HAt Hname Hne Hds Hc.
  destruct digits as [|d ds]; [done|]. pose proof (Forall_inv Hds) as Hd.
  assert (H0 : byteAt buf (At + 0) = "/")
    by (rewrite byteAt_offset, Hname by lia; reflexivity).
  assert (H1 : byteAt buf (At + 1) = d)
    by (rewrite byteAt_offset, Hname by lia; reflexivity).
  assert (Hrun : bytesAt buf (At + 1) = (d :: ds) ++ c :: rest)
    by (rewrite bytesAt_offset, Hname by lia; reflexivity).
  destruct (isdigit_not_slash_or_blank d Hd) as [Hs Hb].
  unfold decodeName. rewrite H0, H1, Hrun, Hs, Hb, Hd. reflexivity.
Qed.


(** A header named [/digits] is rejected when the string table does not
    reach the offset (in particular when no string table was captured), and
    when the table holds no newline from that offset on.  The offset is the
    [unsigned index] that the decoder reads from the digits: the number
    written when that is below 2^32, and its low 32 bits otherwise. *)
Theorem parseMemberHeader_strtab_dangling buf strtab At End s digits c rest :
  0 <= At -> At + sizeofHeader < End ->
  atoi (bytesAt buf (At + off_size)) = s ->
  0 <= s -> At + sizeofHeader + s <= End ->
  checkMemberSignature buf At = true ->
  bytesAt buf At = "/" :: digits ++ c :: rest ->
  digits <> [] -> Forall (fun d => isdigit d = true) digits -> isdigit c = false ->
  let index := u32 (atoi (digits ++ c :: rest)) in
  (decimal digits < 2 ^ 32 -> index = decimal digits)
  /\ (decimal digits < 2 ^ 63 -> index = decimal digits mod 2 ^ 32)
  /\ (Z.of_nat (length strtab) <= index ->
      parseMemberHeader C buf strtab At End
      = ParseError "name index beyond string table")
  /\ (index < Z.of_nat (length strtab) ->
      LF ∉ drop (Z.to_nat index) strtab ->
      parseMemberHeader C buf strtab At End
      = ParseError "missing name terminator in string table").
Proof.
  intros HAt Hend Hs Hs0 Hfit Hsig Hname Hne Hds Hc index.
  rewrite (parseMemberHeader_checked C buf _ At End s) by (auto; lia).
  rewrite (decodeName_reference buf _ At _ s digits c rest) by done.
  cbv zeta. fold index.
  split; [intros; by apply u32_atoi_run|]. split.
  { intros Hlong. pose proof (decimal_nonneg digits Hds). subst index.
    unfold atoi, strtol, LONG_MIN, LONG_MAX. rewrite readDecimal_run by done.
    rewrite Z.min_r, Z.max_r by lia. by rewrite u32_int32. }
  split.
  - intros Hlen. by destruct (Z.ltb_spec index (Z.of_nat (length strtab)));
      [lia|].
  - intros Hlen Hno. destruct (Z.ltb_spec index (Z.of_nat (length strtab)));
      [|lia].
    by rewrite scanName_none.
Qed.
End StringTableNames.

(** ** The member list of a full load *)

Section FullLoad.
Context (C : Collaborators).

(** A turn of the loader's loop skips a symbol table or the string table,
    or appends the ordinary member it decoded; [firstFileOffset] is set by
    the first turn that appends. *)
Lemma loadArchive_body_members Save found a At found' a' :
  loadArchive_body C Save found a = Continue (At, found') a' ->
  exists mbr,
    parseMemberHeader C (buffer a) (strtab a) Save (getBufferEnd a)
    = ParseOk mbr (data mbr)
    /\ At = skipPayload a (data mbr) mbr
    /\ ((members a' = members a /\ found' = found
         /\ firstFileOffset a' = firstFileOffset a)
        \/ (members a' = members a ++ [mbr] /\ ordinary mbr /\ found' = true
            /\ firstFileOffset a'
               = if found then firstFileOffset a else u32 Save)).
Proof.
  unfold loadArchive_body. intros H.
  destruct (parseMemberHeader C _ _ _ _) as [mbr At1| | |] eqn:E; [|done..].
  destruct (parseMemberHeader_ok _ _ _ _ _ _ _ E) as (-> & _).
  exists mbr. split; [done|].
  destruct (isSVR4SymbolTable mbr) eqn:E1; simpl in H.
  { simplify_eq. auto. }
  destruct (isBSD4SymbolTable mbr) eqn:E2; simpl in H.
  { simplify_eq. auto. }
  destruct (isStringTable mbr) eqn:E3.
  { simplify_eq. auto. }
  simplify_eq. split; [by destruct found|]. right.
  unfold ordinary. by destruct found.
Qed.

Lemma loadArchive_members_kept At a :
  Forall ordinary (members a) ->
  StronglySorted before (members a) ->
  Forall (fun m => 8 + sizeofHeader <= data m <= getBufferEnd a
                   /\ payloadEnd m <= At
                   /\ (getBufferEnd a <= 2 ^ 31 -> payloadEnd m <= getBufferEnd a))
         (members a) ->
  Forall ordinary (members a)
  /\ StronglySorted before (members a)
  /\ Forall (fun m => 8 + sizeofHeader <= data m <= getBufferEnd a) (members a)
  /\ (getBufferEnd a <= 2 ^ 31 ->
      Forall (fun m => payloadEnd m <= getBufferEnd a) (members a)).
Proof.
  intros Hord Hsort Hin. split; [done|]. split; [done|]. split.
  - eapply Forall_impl; [exact Hin|]. by intros m (? & ? & ?).
  - intros Hsmall. eapply Forall_impl; [exact Hin|]. intros m (? & ? & Hm). auto.
Qed.

Lemma loadArchive_loop_members fuel At found a r a' :
  loadArchive_loop C fuel At found a = Returned r a' ->
  8 <= At ->
  Forall ordinary (members a) ->
  StronglySorted before (members a) ->
  Forall (fun m => 8 + sizeofHeader <= data m <= getBufferEnd a
                   /\ payloadEnd m <= At
                   /\ (getBufferEnd a <= 2 ^ 31 -> payloadEnd m <= getBufferEnd a))
         (members a) ->
  Forall ordinary (members a')
  /\ StronglySorted before (members a')
  /\ Forall (fun m => 8 + sizeofHeader <= data m <= getBufferEnd a) (members a')
  /\ (getBufferEnd a <= 2 ^ 31 ->
      Forall (fun m => payloadEnd m <= getBufferEnd a) (members a')).
Proof.
  revert At found a.
  induction fuel as [|fuel IH]; intros At found a H HAt Hord Hsort Hin; simpl in H.
  { simplify_eq. by eapply loadArchive_members_kept. }
  pose proof (loadArchive_members_kept At a Hord Hsort Hin) as Hdone.
  destruct (At <? getBufferEnd a); [|by simplify_eq].
  destruct (loadArchive_body C At found a) as [[At1 found1] a1|msg a1|] eqn:E;
    [| |done].
  2: { pose proof (loadArchive_body_spec C At found a) as Hs. rewrite E in Hs.
       by simplify_eq. }
  pose proof (loadArchive_body_progress C _ _ _ _ _ _ E) as [Hlt Hend].
  apply loadArchive_body_members in E as (mbr & Hp & -> & Hm).
  assert (Hext : getBufferEnd a <= 2 ^ 31 -> payloadEnd mbr <= getBufferEnd a).
  { intros Hsmall.
    by apply (parseMemberHeader_extent C) in Hp as (_ & _ & ?); [|lia|done]. }
  apply parseMemberHeader_ok in Hp as (_ & _ & Hsum & _ & Hdata & Hinside & _).
  pose proof (inlineLen_range (buffer a) At) as Hlen.
  pose proof (skipPayload_ge a (data mbr) mbr) as Hskip.
  unfold getSize in Hskip. fold (payloadEnd mbr) in Hskip. rewrite <- Hend.
  eapply IH; [exact H|lia|..].
  - destruct Hm as [(-> & _)|(-> & Ho & _)]; [done|].
    apply Forall_app. split; [done|]. by constructor.
  - destruct Hm as [(-> & _)|(-> & _)]; [done|].
    apply StronglySorted_app_2; [|done|by repeat constructor].
    intros m1 m2 Hm1 ->%list_elem_of_singleton.
    rewrite Forall_forall in Hin. destruct (Hin m1 Hm1) as (_ & Hle & _).
    unfold before. lia.
  - assert (Hold : Forall (fun m => 8 + sizeofHeader <= data m <= getBufferEnd a1
                                    /\ payloadEnd m <= skipPayload a (data mbr) mbr
                                    /\ (getBufferEnd a1 <= 2 ^ 31 ->
                                        payloadEnd m <= getBufferEnd a1))
                          (members a)).
    { eapply Forall_impl; [exact Hin|]. intros m (? & ? & ?).
      rewrite Hend. repeat split; auto; lia. }
    destruct Hm as [(-> & _)|(-> & _)]; [done|].
    apply Forall_app. split; [done|]. constructor; [|done].
    rewrite Hend. unfold sizeofHeader in *. repeat split; auto; lia.
Qed.

(** After a full load, whether it succeeded or stopped at a header it could
    not decode, the member list holds ordinary members only, no symbol
    table and no string table; the members are in file order, each payload
    starting at least the length of a header after the end of the payload of
    every member before it; and every payload starts at or after offset 68
    and at or before the end of the mapped file.  In a file of at most 2^31
    bytes every payload also ends, going by the member's size, at or before
    the end of the file; in a larger file an inline name of more than 2^31
    bytes can leave a size that says otherwise. *)
Theorem loadArchive_members a r a' :
  loadArchive C a = Returned r a' ->
  Forall ordinary (members a')
  /\ StronglySorted before (members a')
  /\ Forall (fun m => 8 + sizeofHeader <= data m <= getBufferEnd a) (members a')
  /\ (getBufferEnd a <= 2 ^ 31 ->
      Forall (fun m => payloadEnd m <= getBufferEnd a) (members a')).
Proof.
  unfold loadArchive. intros H.
  set (a0 := set_symTab ∅ (set_members [] a)) in *.
  destruct (isMapped a0); [|done]. simpl in H.
  destruct (checkSignature a0); simpl in H.
  - change (getBufferEnd a) with (getBufferEnd a0).
    eapply loadArchive_loop_members; [exact H|lia|..]; constructor.
  - simplify_eq. cbn. repeat split; constructor.
Qed.

Lemma loadArchive_loop_firstFile base buf ffo0 fuel At found a r a' :
  loadArchive_loop C fuel At found a = Returned r a' ->
  scanned base buf 8 At ->
  firstFileKnown C base buf ffo0 found a ->
  exists found', firstFileKnown C base buf ffo0 found' a'.
Proof.
  revert At found a.
  induction fuel as [|fuel IH]; intros At found a H Hsc Hinv; simpl in H.
  { simplify_eq. eauto. }
  destruct (At <? getBufferEnd a); [|simplify_eq; eauto].
  pose proof (loadArchive_body_spec C At found a) as Hs.
  destruct (loadArchive_body C At found a) as [[At1 found1] a1|msg a1|] eqn:E;
    [| |done].
  2: { simplify_eq. eauto. }
  destruct Hs as (Hf & _).
  pose proof (loaderFrame_buffer _ _ Hf) as Hbuf.
  destruct Hf as (_ & Hbase & _).
  destruct Hinv as (Hb & Hbf & Hinv). subst base buf.
  apply loadArchive_body_members in E as (mbr & Hp & -> & Hm).
  eapply IH; [exact H|..].
  - by eapply scanned_skipPayload.
  - split; [congruence|]. split; [congruence|].
    destruct Hm as [(Hmem & -> & Hffo)|(Hmem & _ & -> & Hffo)].
    + rewrite Hmem, Hffo. exact Hinv.
    + destruct found.
      * destruct Hinv as (m0 & rest & Save & st & Hm0 & Hs0 & Hf0 & Hp0).
        exists m0, (rest ++ [mbr]), Save, st.
        rewrite Hmem, Hm0, Hffo. done.
      * destruct Hinv as (Hnil & _).
        exists mbr, [], At, (strtab a). rewrite Hmem, Hnil, Hffo.
        repeat split; done.
Qed.

(** A full load captures [firstFileOffset] once: when it returns with a
    member list that is not empty, [firstFileOffset] is the offset of the
    header from which the first member of the list was decoded, a header on
    the scan from offset 8; when the list is empty, [firstFileOffset] is
    what it was before the load. *)
Theorem loadArchive_firstFileOffset a r a' :
  loadArchive C a = Returned r a' ->
  match members a' with
  | [] => firstFileOffset a' = firstFileOffset a
  | mbr :: _ =>
      exists Save strtab,
        scanned (baseAddr a) (buffer a) 8 Save
        /\ firstFileOffset a' = u32 Save
        /\ parseMemberHeader C (buffer a) strtab Save (getBufferEnd a)
           = ParseOk mbr (data mbr)
  end.
Proof.
  unfold loadArchive. intros H.
  set (a0 := set_symTab ∅ (set_members [] a)) in *.
  assert (exists found',
             firstFileKnown C (baseAddr a) (buffer a) (firstFileOffset a) found' a')
    as (found' & _ & _ & Hk).
  { destruct (isMapped a0); [|done]. simpl in H.
    destruct (checkSignature a0); simpl in H.
    - eapply loadArchive_loop_firstFile; [exact H|apply scanned_start|].
      by repeat split.
    - simplify_eq. exists false. by repeat split. }
  destruct found'.
  - destruct Hk as (mbr & rest & Save & st & -> & ? & ? & ?). eauto.
  - by destruct Hk as (-> & ->).
Qed.
End FullLoad.

(** ** The anchor load *)

Section AnchorLoad.
Context (C : Collaborators).

(** When the anchor load succeeds, the member list holds exactly one member,
    the anchor; [firstFileOffset] is the offset of the header it was decoded
    from, which is the header at 8 or one of the two that follow it on the
    scan; the symbol table and the module cache are as before.  When it
    fails with a message, the member list is empty and [firstFileOffset] is
    as before. *)
Theorem loadSymbolTable_anchor a r a' :
  loadSymbolTable C a = Returned r a' ->
  symTab a' = symTab a /\ modules a' = modules a
  /\ match r with
     | OK =>
         exists FirstFile mbr strtab,
           members a' = [mbr]
           /\ firstFileOffset a' = u32 FirstFile
           /\ (FirstFile = 8
               \/ FirstFile = nextHeader (baseAddr a) (buffer a) 8
               \/ FirstFile = nextHeader (baseAddr a) (buffer a)
                                (nextHeader (baseAddr a) (buffer a) 8))
           /\ parseMemberHeader C (buffer a) strtab FirstFile (getBufferEnd a)
              = ParseOk mbr (data mbr)
     | Error _ => members a' = [] /\ firstFileOffset a' = firstFileOffset a
     end.
Proof.
  intros H.
  destruct (loadSymbolTable_frame C a r a' H) as (_ & _ & Hsym & Hmod & _).
  split; [done|]. split; [done|].
  unfold loadSymbolTable in H.
  change (isMapped (set_members [] a)) with (isMapped a) in H.
  destruct (isMapped a); [|done]. simpl in H.
  set (a0 := set_members [] a) in *.
  assert (Hnext : forall strtab At mbr At1,
             parseMemberHeader C (buffer a0) strtab At (getBufferEnd a0)
             = ParseOk mbr At1 ->
             At1 = data mbr
             /\ skipPayload a0 At1 mbr = nextHeader (baseAddr a) (buffer a) At).
  { intros st At mbr At1 Hp.
    apply parseMemberHeader_ok in Hp as (-> & _ & Hsum & _). split; [done|].
    destruct (skipPayload_spec a0 (data mbr) mbr) as [-> _]. unfold getSize.
    by rewrite Hsum. }
  destruct (checkSignature a0); simpl in H.
  2: { simplify_eq. cbn. auto. }
  destruct (parseMemberHeader C (buffer a0) _ 8 (getBufferEnd a0))
    as [m1 At1| | |] eqn:E1; cbv beta iota zeta in H;
    [|simplify_eq; cbn; auto|done..].
  destruct (Hnext _ _ _ _ E1) as [-> N1].
  destruct (isSVR4SymbolTable m1 || isBSD4SymbolTable m1); cbv beta iota zeta in H.
  - rewrite N1 in H.
    destruct (parseMemberHeader C (buffer a0) _ _ (getBufferEnd a0))
      as [m2 At2| | |] eqn:E2; cbv beta iota zeta in H;
      [|simplify_eq; cbn; auto|done..].
    destruct (Hnext _ _ _ _ E2) as [-> N2].
    destruct (isStringTable m2); cbv beta iota zeta in H.
    + change (skipPayload (set_strtab (payload a0 m2) a0) (data m2) m2)
        with (skipPayload a0 (data m2) m2) in H.
      rewrite N2 in H.
      change (buffer (set_strtab (payload a0 m2) a0)) with (buffer a0) in H.
      destruct (parseMemberHeader C (buffer a0) _ _ (getBufferEnd a0))
        as [m3 At3| | |] eqn:E3; cbv beta iota zeta in H;
        [|simplify_eq; cbn; auto|done..].
      destruct (Hnext _ _ _ _ E3) as [-> _].
      simplify_eq. cbn. eauto 10.
    + simplify_eq. cbn. eauto 10.
  - destruct (isStringTable m1); cbv beta iota zeta in H.
    + change (skipPayload (set_strtab (payload a0 m1) a0) (data m1) m1)
        with (skipPayload a0 (data m1) m1) in H.
      rewrite N1 in H.
      change (buffer (set_strtab (payload a0 m1) a0)) with (buffer a0) in H.
      destruct (parseMemberHeader C (buffer a0) _ _ (getBufferEnd a0))
        as [m3 At3| | |] eqn:E3; cbv beta iota zeta in H;
        [|simplify_eq; cbn; auto|done..].
      destruct (Hnext _ _ _ _ E3) as [-> _].
      simplify_eq. cbn. eauto 10.
    + simplify_eq. cbn. eauto 10.
Qed.
End AnchorLoad.

(** ** The symbol table that the scan builds *)

Lemma scanned_inv base buf start P :
  scanned base buf start P ->
  P = start \/ scanned base buf (nextHeader base buf start) P.
Proof.
  induction 1 as [|At Hs [->|IH]].
  - by left.
  - right. apply scanned_start.
  - right. by apply scanned_next.
Qed.

Lemma scanned_past_end base buf start P :
  Z.of_nat (length buf) <= start -> scanned base buf start P ->
  Z.of_nat (length buf) <= P.
Proof.
  intros Hstart. induction 1 as [|At Hs IH]; [done|].
  assert (Hend : memberEnd buf At = At + sizeofHeader).
  { unfold memberEnd, inlineLen, byteAt, bytesAt.
    rewrite (nth_overflow buf NUL (n := Z.to_nat (At + 0))) by lia.
    rewrite !drop_ge by (unfold off_size; lia).
    change (Ascii.eqb NUL "#") with false. cbn [andb].
    change (atoi []) with 0. change (int32 (0 - 0)) with 0. lia. }
  unfold nextHeader. rewrite Hend. unfold sizeofHeader. case_match; lia.
Qed.

Lemma u32_anchor P f : u32 (u32 (P - f) + f) = u32 P.
Proof.
  unfold u32. rewrite Zplus_mod_idemp_l. f_equal. lia.
Qed.

Section BuiltIndex.
Context (C : Collaborators).

Lemma definedAt_frame a a' At name :
  indexFrame a a' -> definedAt C a At name -> definedAt C a' At name.
Proof.
  intros Hf. pose proof (indexFrame_buffer _ _ Hf) as Hb.
  destruct Hf as (_ & _ & Hst & _).
  unfold definedAt, payload, getBufferEnd, getBufferSize. by rewrite Hb, Hst.
Qed.

Lemma indexMember_next At a At' a' :
  indexMember C At a = Continue At' a' ->
  At' = nextHeader (baseAddr a) (buffer a) At.
Proof.
  intros H. pose proof (indexMember_spec C At a) as Hs. rewrite H in Hs.
  destruct Hs as (_ & mbr & Hp & -> & _).
  apply parseMemberHeader_ok in Hp as (_ & _ & Hsum & _).
  destruct (skipPayload_spec a (data mbr) mbr) as [-> _]. unfold getSize.
  by rewrite Hsum.
Qed.

Lemma indexLoop_keeps fuel At a r a' name off :
  indexLoop C fuel At a = Returned r a' ->
  symTab a !! name = Some off -> symTab a' !! name = Some off.
Proof.
  revert At a. induction fuel as [|fuel IH]; intros At a H Hin; simpl in H.
  { by simplify_eq. }
  destruct (At <? getBufferEnd a); [|by simplify_eq].
  pose proof (indexMember_spec C At a) as Hs.
  destruct (indexMember C At a) as [At1 a1|msg a1|] eqn:E; [| |done].
  - destruct Hs as (_ & mbr & _ & _ & Hsym).
    eapply IH; [exact H|]. by rewrite Hsym, Hin.
  - destruct Hs as [_ Hs]. simplify_eq. by rewrite Hs.
Qed.

Lemma indexLoop_sound fuel start At a r a' name off :
  indexLoop C fuel At a = Returned r a' ->
  scanned (baseAddr a) (buffer a) start At ->
  symTab a' !! name = Some off ->
  symTab a !! name = Some off
  \/ exists P,
       scanned (baseAddr a) (buffer a) start P
       /\ off = u32 (P - firstFileOffset a)
       /\ definedAt C a P name.
Proof.
  revert At a. induction fuel as [|fuel IH]; intros At a H Hsc Hin; simpl in H.
  { simplify_eq. by left. }
  destruct (At <? getBufferEnd a); [|simplify_eq; by left].
  pose proof (indexMember_spec C At a) as Hs.
  destruct (indexMember C At a) as [At1 a1|msg a1|] eqn:E; [| |done].
  2: { destruct Hs as [_ Hs]. simplify_eq. left. by rewrite <- Hs. }
  pose proof (indexMember_next _ _ _ _ E) as ->.
  destruct Hs as (Hf & mbr & Hp & _ & Hsym).
  pose proof (indexFrame_buffer _ _ Hf) as Hb.
  pose proof Hf as (_ & Hbase & Hst & Hffo & _).
  destruct (IH _ _ H) as [Hold|(P & HP & -> & Hdef)]; [| exact Hin | |].
  - rewrite Hb, Hbase. by apply scanned_next.
  - rewrite Hsym in Hold. destruct (symTab a !! name) as [o|] eqn:Ho; [by left|].
    right. exists At. split; [done|].
    destruct (isBitcode mbr) eqn:Ebc; [|done].
    destruct (GetBitcodeSymbols C (payload a mbr)) as [|symbols] eqn:Eg; [done|].
    destruct (decide (name ∈ symbols)); [|done]. simplify_eq.
    split; [done|]. exists mbr, symbols. done.
  - right. exists P. rewrite Hb, Hbase, Hffo in *. split; [done|]. split; [done|].
    destruct Hdef as (m & sy & D1 & D2 & D3 & D4). exists m, sy.
    unfold payload, getBufferEnd, getBufferSize in *.
    rewrite Hb, Hst in *. done.
Qed.

(** After the scan has built the symbol table from empty, every entry leads
    to a definition: the offset stored for a name is the offset, relative to
    [firstFileOffset], of a header on the scan that decodes to a bitcode
    member defining the name; and the offset that a look-up computes from
    the entry, by adding [firstFileOffset], is the offset of that header. *)
Theorem buildSymbolTable_sound a r a' name off :
  symTab a = ∅ ->
  buildSymbolTable C a = Returned r a' ->
  symTab a' !! name = Some off ->
  firstFileOffset a' = firstFileOffset a
  /\ exists P,
       scanned (baseAddr a) (buffer a) (firstFileOffset a) P
       /\ off = u32 (P - firstFileOffset a)
       /\ u32 (off + firstFileOffset a') = u32 P
       /\ definedAt C a P name.
Proof.
  unfold buildSymbolTable. intros He H Hin.
  set (a1 := log EvIndexScan a) in *.
  pose proof (indexLoop_frame _ _ _ _ _ _ H) as (_ & _ & _ & Hffo & _).
  split; [done|].
  destruct (indexLoop_sound _ (firstFileOffset a1) _ _ _ _ _ _ H
              (scanned_start _ _ _) Hin) as [Hold|(P & HP & -> & Hdef)].
  - cbn in Hold. by rewrite He, lookup_empty in Hold.
  - exists P. rewrite Hffo. cbn. split; [done|]. split; [done|].
    split; [apply u32_anchor|done].
Qed.

Lemma indexLoop_complete fuel At a a' P name :
  indexLoop C fuel At a = Returned OK a' ->
  (Z.to_nat (getBufferEnd a - At) <= fuel)%nat ->
  scanned (baseAddr a) (buffer a) At P ->
  P < getBufferEnd a ->
  definedAt C a P name ->
  is_Some (symTab a' !! name).
Proof.
  revert At a. induction fuel as [|fuel IH]; intros At a H Hfuel Hsc HP Hdef;
    simpl in H.
  { apply scanned_past_end in Hsc; [|unfold getBufferEnd, getBufferSize in *; lia].
    unfold getBufferEnd, getBufferSize in *. lia. }
  destruct (Z.ltb_spec At (getBufferEnd a)).
  2: { apply scanned_past_end in Hsc; unfold getBufferEnd, getBufferSize in *; lia. }
  pose proof (indexMember_spec C At a) as Hs.
  destruct (indexMember C At a) as [At1 a1|msg a1|] eqn:E; [|done|done].
  pose proof (indexMember_progress _ _ _ _ _ E) as [Hlt Hend].
  pose proof (indexMember_next _ _ _ _ E) as ->.
  destruct Hs as (Hf & mbr & Hp & _ & Hsym).
  pose proof (indexFrame_buffer _ _ Hf) as Hb.
  pose proof Hf as (_ & Hbase & _).
  destruct (scanned_inv _ _ _ _ Hsc) as [->|Hsc'].
  - destruct Hdef as (m & sy & D1 & D2 & D3 & D4).
    rewrite Hp in D1. simplify_eq.
    assert (is_Some (symTab a1 !! name)) as [o Ho].
    { rewrite Hsym. destruct (symTab a !! name); [eauto|].
      rewrite D2, D3. rewrite decide_True by done. eauto. }
    exists o. by eapply indexLoop_keeps.
  - eapply (IH _ _ H); [lia| |lia|by eapply definedAt_frame].
    by rewrite Hb, Hbase.
Qed.

(** When the scan succeeds, the symbol table misses nothing: every name
    that a bitcode member on the scan defines, at a header before the end
    of the file, has an entry. *)
Theorem buildSymbolTable_complete a a' P name :
  buildSymbolTable C a = Returned OK a' ->
  scanned (baseAddr a) (buffer a) (firstFileOffset a) P ->
  P < getBufferEnd a ->
  definedAt C a P name ->
  is_Some (symTab a' !! name).
Proof.
  unfold buildSymbolTable. intros H Hsc HP Hdef.
  eapply indexLoop_complete; [exact H|cbn; lia|exact Hsc|exact HP|].
  exact Hdef.
Qed.
End BuiltIndex.

(** ** What every call keeps *)

Lemma std_insert_subseteq `{Countable K} {V} (k : K) (v : V) (m : gmap K V) :
  m ⊆ std_insert k v m.
Proof.
  apply map_subseteq_spec. intros i x Hi. by rewrite lookup_std_insert, Hi.
Qed.

Lemma keeps_refl a : keeps a a.
Proof. unfold keeps, grows. split; [|done]. repeat split; try done; lia. Qed.

Lemma keeps_trans a b c : keeps a b -> keeps b c -> keeps a c.
Proof.
  intros [(A1 & A2 & A3 & A4 & A5) A6] [(B1 & B2 & B3 & B4 & B5) B6].
  split; [|auto]. unfold grows. split; [congruence|]. split; [congruence|].
  split; [by etrans|]. split; [lia|by etrans].
Qed.

Lemma keeps_same a a' :
  mapfile a' = mapfile a -> baseAddr a' = baseAddr a ->
  modules a' = modules a -> (nextModule a <= nextModule a')%nat ->
  trace a `prefix_of` trace a' ->
  keeps a a'.
Proof.
  intros H1 H2 H3 H4 H5. split.
  - unfold grows. rewrite H3. auto.
  - intros [Hb Hi]. split.
    + intros k m mbr Hk. rewrite H3 in Hk. specialize (Hb _ _ _ Hk). lia.
    + intros k1 k2 m mbr1 mbr2. rewrite H3. apply Hi.
Qed.

Lemma keeps_insert a a' k mbr :
  mapfile a' = mapfile a -> baseAddr a' = baseAddr a ->
  modules a' = std_insert k (nextModule a, mbr) (modules a) ->
  nextModule a' = S (nextModule a) ->
  trace a `prefix_of` trace a' ->
  keeps a a'.
Proof.
  intros H1 H2 H3 H4 H5. split.
  - unfold grows. rewrite H3.
    split; [done|]. split; [done|]. split; [apply std_insert_subseteq|].
    split; [lia|done].
  - intros [Hb Hi]. split.
    + intros k' m mbr' Hk. rewrite H3, lookup_std_insert in Hk.
      match type of Hk with
      | match ?x with _ => _ end = _ => destruct x as [[m0 mbr0]|] eqn:E
      end.
      * simplify_eq. specialize (Hb _ _ _ E). lia.
      * case_decide; simplify_eq. lia.
    + intros k1 k2 m mbr1 mbr2. rewrite H3, !lookup_std_insert.
      intros Hk1 Hk2.
      match type of Hk1 with
      | match ?x with _ => _ end = _ => destruct x as [[m1 x1]|] eqn:E1
      end;
        match type of Hk2 with
        | match ?x with _ => _ end = _ => destruct x as [[m2 x2]|] eqn:E2
        end;
        repeat case_decide; simplify_eq; try done.
      * by eapply Hi.
      * specialize (Hb _ _ _ E1). lia.
      * specialize (Hb _ _ _ E2). lia.
Qed.

Lemma prefix_snoc {A} (l : list A) (x : A) : l `prefix_of` l ++ [x].
Proof. by apply prefix_app_r. Qed.

Section EveryCall.
Context (C : Collaborators).

Lemma keeps_loaderFrame a a' : loaderFrame a a' -> keeps a a'.
Proof.
  intros (H1 & H2 & _ & H4 & H5 & H6 & _).
  apply keeps_same; auto; [lia|by rewrite H6].
Qed.

Lemma loadArchive_keeps a r a' : loadArchive C a = Returned r a' -> keeps a a'.
Proof.
  unfold loadArchive. intros H.
  set (a0 := set_symTab ∅ (set_members [] a)) in *.
  assert (Hf : loaderFrame a0 a').
  { destruct (isMapped a0); [|done]. destruct (checkSignature a0); simpl in H.
    - by apply loadArchive_loop_frame in H.
    - simplify_eq. apply loaderFrame_refl. }
  apply keeps_loaderFrame in Hf. eapply keeps_trans; [|exact Hf].
  by apply keeps_same.
Qed.

Lemma loadSymbolTable_keeps a r a' :
  loadSymbolTable C a = Returned r a' -> keeps a a'.
Proof.
  intros H. apply loadSymbolTable_frame in H as (H1 & H2 & _ & H4 & H5 & H6).
  apply keeps_same; auto; [lia|by rewrite H6].
Qed.

Lemma indexMember_keeps At a :
  match indexMember C At a with
  | Continue _ a' | Fail _ a' => keeps a a'
  | Crash => True
  end.
Proof.
  unfold indexMember, newModule.
  repeat case_match; simplify_eq; try done; try apply keeps_refl.
  - eapply keeps_insert; cbn; eauto using prefix_snoc.
  - apply keeps_same; cbn; auto using prefix_snoc.
Qed.

Lemma indexLoop_keeps_cache fuel At a r a' :
  indexLoop C fuel At a = Returned r a' -> keeps a a'.
Proof.
  revert At a. induction fuel as [|fuel IH]; intros At a H; simpl in H.
  { simplify_eq. apply keeps_refl. }
  destruct (At <? getBufferEnd a); [|simplify_eq; apply keeps_refl].
  pose proof (indexMember_keeps At a) as Hk.
  destruct (indexMember C At a) as [At1 a1|msg a1|]; [| |done].
  - eapply keeps_trans; eauto.
  - by simplify_eq.
Qed.

Lemma findModuleDefiningSymbol_keeps symbol a r a' :
  findModuleDefiningSymbol C symbol a = Returned r a' -> keeps a a'.
Proof.
  unfold findModuleDefiningSymbol, newModule. intros H.
  repeat case_match; simplify_eq; try apply keeps_refl.
  - apply keeps_same; cbn; auto using prefix_snoc.
  - eapply keeps_insert; cbn; eauto using prefix_snoc.
Qed.

Lemma resolveLoop_keeps symbols Added result error a r a' :
  resolveLoop C symbols Added result error a = Returned r a' -> keeps a a'.
Proof.
  revert Added result error a r a'.
  induction symbols as [|sym symbols IH]; intros Added result error a r a' H;
    simpl in H; [simplify_eq; apply keeps_refl|].
  destruct (findModuleDefiningSymbol C sym a) as [l a1|] eqn:E; [|done].
  apply findModuleDefiningSymbol_keeps in E.
  assert (Hkeep : forall o, keepSymbol sym o = Returned r a' ->
                            exists r', o = Returned r' a').
  { intros [r' a2|]; simpl; intros; simplify_eq; eauto. }
  destruct l as [m| |msg]; [destruct (decide (m ∈ Added))|..];
    try (apply Hkeep in H as [r' H]);
    apply IH in H; by eapply keeps_trans.
Qed.

Lemma findModulesDefiningSymbols_keeps symbols result a r a' :
  findModulesDefiningSymbols C symbols result a = Returned r a' -> keeps a a'.
Proof.
  unfold findModulesDefiningSymbols, buildSymbolTable. intros H.
  destruct (mapfile a); [|simplify_eq; apply keeps_refl].
  assert (exists s a1,
             (if symTab_empty a
              then indexLoop C (Z.to_nat (getBufferEnd (log EvIndexScan a)
                                          - firstFileOffset (log EvIndexScan a)))
                     (firstFileOffset (log EvIndexScan a)) (log EvIndexScan a)
              else Returned OK a) = Returned s a1 /\ keeps a a1)
    as (s & a1 & E & Hk).
  { destruct (symTab_empty a).
    - destruct (indexLoop C _ _ _) as [s a1|] eqn:E; [|done].
      exists s, a1. split; [done|]. apply indexLoop_keeps_cache in E.
      eapply keeps_trans; [|exact E]. apply keeps_same; cbn; auto using prefix_snoc.
    - exists OK, a. split; [done|]. apply keeps_refl. }
  rewrite E in H. destruct s; [|by simplify_eq].
  destruct (resolveLoop C symbols ∅ result None a1) as [r1 a2|] eqn:E2; [|done].
  simplify_eq. apply resolveLoop_keeps in E2. by eapply keeps_trans.
Qed.

Lemma isBitcodeArchive_keeps a b a' :
  isBitcodeArchive C a = Returned b a' -> keeps a a'.
Proof.
  unfold isBitcodeArchive. intros H.
  assert (exists s a1,
             (if symTab_empty a then loadSymbolTable C a else Returned OK a)
             = Returned s a1 /\ keeps a a1) as (s & a1 & E & Hk).
  { destruct (symTab_empty a).
    - destruct (loadSymbolTable C a) as [s a1|] eqn:E; [|done].
      exists s, a1. split; [done|]. by eapply loadSymbolTable_keeps.
    - exists OK, a. split; [done|]. apply keeps_refl. }
  rewrite E in H. destruct s; [|by simplify_eq].
  destruct (negb _); [by simplify_eq|].
  destruct (loadArchive C a1) as [s a2|] eqn:E2; [|done].
  apply loadArchive_keeps in E2.
  assert (keeps a a2) by (by eapply keeps_trans).
  destruct s; [|by simplify_eq].
  destruct (find isBitcode (members a2)); simplify_eq; [|done].
  eapply keeps_trans; [eassumption|]. apply keeps_same; cbn; auto using prefix_snoc.
Qed.

Lemma getAllModules_loop_keeps ms Modules a :
  keeps a (snd (getAllModules_loop C ms Modules a)).
Proof.
  revert Modules a. induction ms as [|mbr ms IH]; intros Modules a; simpl.
  { apply keeps_refl. }
  destruct (isBitcode mbr); [|apply IH].
  destruct (parseBitcodeFile C _).
  - eapply keeps_trans; [|apply IH].
    apply keeps_same; cbn; auto using prefix_snoc.
  - apply keeps_same; cbn; auto using prefix_snoc.
Qed.

(** Whatever methods are called on an archive, in whatever order, as long as
    they return: the file stays mapped where it is; an entry of the module
    cache, once made, is never removed or replaced; the trace of calls to
    the bitcode reader is only extended; and if no module was cached under
    two keys before, none is afterwards. *)
Theorem calls_keep cs a a' :
  calls C cs a = Some a' ->
  mapfile a' = mapfile a /\ baseAddr a' = baseAddr a
  /\ (forall k e, modules a !! k = Some e -> modules a' !! k = Some e)
  /\ trace a `prefix_of` trace a'
  /\ (cacheSound a -> cacheSound a').
Proof.
  intros H. assert (Hk : keeps a a').
  { revert a H. induction cs as [|c cs IH]; intros a H; simpl in H.
    { simplify_eq. apply keeps_refl. }
    destruct (call C c a) as [a1|] eqn:E; [|done].
    eapply keeps_trans; [|by apply IH].
    destruct c as [| |symbol|symbols res| |Modules]; simpl in E.
    - destruct (loadArchive C a) eqn:E'; simplify_eq. by eapply loadArchive_keeps.
    - destruct (loadSymbolTable C a) eqn:E'; simplify_eq.
      by eapply loadSymbolTable_keeps.
    - destruct (findModuleDefiningSymbol C symbol a) eqn:E'; simplify_eq.
      by eapply findModuleDefiningSymbol_keeps.
    - destruct (findModulesDefiningSymbols C symbols res a) eqn:E'; simplify_eq.
      by eapply findModulesDefiningSymbols_keeps.
    - destruct (isBitcodeArchive C a) eqn:E'; simplify_eq.
      by eapply isBitcodeArchive_keeps.
    - simplify_eq. apply getAllModules_loop_keeps. }
  destruct Hk as [(H1 & H2 & H3 & _ & H5) H6].
  split; [done|]. split; [done|]. split; [|by split].
  intros k e. revert k e. by apply map_subseteq_spec.
Qed.
End EveryCall.

(** ** Looking up one symbol *)

Section OneSymbol.
Context (C : Collaborators).

Lemma findModuleDefiningSymbol_found symbol a m a' :
  findModuleDefiningSymbol C symbol a = Returned (Found m) a' ->
  a' = a
  /\ exists second mbr,
       symTab a !! symbol = Some second
       /\ modules a !! u32 (second + firstFileOffset a) = Some (m, mbr).
Proof.
  unfold findModuleDefiningSymbol, newModule. intros H.
  repeat case_match; simplify_eq. eauto.
Qed.

Lemma findModuleDefiningSymbol_unknown symbol a :
  symTab a !! symbol = None ->
  findModuleDefiningSymbol C symbol a = Returned Null a.
Proof. unfold findModuleDefiningSymbol. by intros ->. Qed.

(** A look-up of a name that the symbol table holds, if it does not fail,
    leaves the member in the cache: the same look-up again returns the cached
    module and changes nothing, so the bitcode reader is not called a second
    time.  When the first look-up already returned a module, it is that
    module, and the first look-up changed nothing either. *)
Theorem findModuleDefiningSymbol_again symbol a l a' :
  is_Some (symTab a !! symbol) ->
  findModuleDefiningSymbol C symbol a = Returned l a' ->
  (forall msg, l <> Failed msg) ->
  exists m,
    findModuleDefiningSymbol C symbol a' = Returned (Found m) a'
    /\ (forall m0, l = Found m0 -> m0 = m /\ a' = a)
    /\ (l = Null -> m = nextModule a /\ trace a' <> trace a).
Proof.
  intros [second Hs] H Hl. unfold findModuleDefiningSymbol, newModule in H.
  rewrite Hs in H.
  destruct (modules a !! u32 (second + firstFileOffset a)) as [[m mbr]|] eqn:Hm.
  - simplify_eq. exists m. unfold findModuleDefiningSymbol.
    rewrite Hs, Hm. split; [done|]. split; [|done].
    intros m0 ?. by simplify_eq.
  - destruct (negb (isMapped a)); [done|].
    destruct (parseMemberHeader C _ _ _ _) as [mbr At| | |]; [| |done..].
    + cbv beta iota zeta in H.
      destruct (getLazyBitcodeModule C _); simplify_eq; [by destruct (Hl s)|].
      exists (nextModule a). unfold findModuleDefiningSymbol. cbn.
      rewrite Hs, lookup_std_insert, Hm, decide_True by done.
      split; [done|]. split; [done|]. intros _. split; [done|].
      intros E. apply (f_equal length) in E. rewrite length_app in E.
      simpl in E. lia.
    + simplify_eq. by destruct (Hl msg).
Qed.
End OneSymbol.

(** ** Resolving a set of symbols *)

Section Resolution.
Context (C : Collaborators).

Lemma resolveLoop_accounting symbols Added res err a r a' :
  resolveLoop C symbols Added res err a = Returned r a' ->
  symbols_left r `sublist_of` symbols
  /\ exists new,
       result r = res ++ new
       /\ NoDup new
       /\ (forall m, m ∈ new ->
             (m ∉ Added) /\ exists k mbr, modules a' !! k = Some (m, mbr))
       /\ length symbols = (length (symbols_left r) + length new)%nat
       /\ (forall s, s ∈ symbols -> symTab a !! s = None -> s ∈ symbols_left r)
       /\ (err <> None -> error r <> None).
Proof.
  revert Added res err a r a'.
  induction symbols as [|sym symbols IH]; intros Added res err a r a' H;
    simpl in H.
  { simplify_eq. simpl. split; [done|]. exists []. rewrite app_nil_r.
    split; [done|]. split; [constructor|]. split; [by intros m ?%elem_of_nil|].
    split; [done|]. split; [by intros s ?%elem_of_nil|done]. }
  destruct (findModuleDefiningSymbol C sym a) as [l a1|] eqn:E; [|done].
  pose proof (findModuleDefiningSymbol_frame C _ _ _ _ E) as [Hsym _].
  assert (Hkept : forall Added' res' err' (o : Outcome Resolution),
             (err <> None -> err' <> None) ->
             o = resolveLoop C symbols Added' res' err' a1 ->
             keepSymbol sym o = Returned r a' ->
             Added' = Added -> res' = res ->
             symbols_left r `sublist_of` (sym :: symbols)
             /\ exists new,
                  result r = res ++ new
                  /\ NoDup new
                  /\ (forall m, m ∈ new ->
                        (m ∉ Added) /\ exists k mbr, modules a' !! k = Some (m, mbr))
                  /\ length (sym :: symbols)
                     = (length (symbols_left r) + length new)%nat
                  /\ (forall s, s ∈ (sym :: symbols) -> symTab a !! s = None ->
                        s ∈ symbols_left r)
                  /\ (err <> None -> error r <> None)).
  { intros Added' res' err' o Herr -> Hk -> ->.
    destruct (resolveLoop C symbols Added res err' a1) as [r1 a2|] eqn:E1;
      [|done].
    simpl in Hk. simplify_eq. simpl.
    apply IH in E1 as (Hsub & new & E2 & Hnd & Hnew & Hlen & Hleft & Herr').
    split; [by apply sublist_skip|]. exists new.
    split; [done|]. split; [done|]. split; [done|]. split; [lia|].
    split; [|auto].
    intros s [->|Hin]%elem_of_cons Hnone; [by left|].
    right. apply Hleft; [done|]. by rewrite Hsym. }
  destruct l as [m| |msg].
  - destruct (decide (m ∈ Added)) as [Hin|Hout].
    + by eapply (Hkept Added res err).
    + apply findModuleDefiningSymbol_found in E as (-> & second & mbr & Hs & Hm).
      pose proof (resolveLoop_keeps C _ _ _ _ _ _ _ H) as [(_ & _ & Hsub & _) _].
      apply IH in H as (Hsubl & new & E2 & Hnd & Hnew & Hlen & Hleft & Herr').
      split; [by apply sublist_cons|]. exists (m :: new).
      split; [by rewrite E2, <- app_assoc|].
      split.
      { constructor; [|done]. intros Hin. apply Hnew in Hin as [Hin _].
        apply Hin. by apply elem_of_union_l, elem_of_singleton. }
      split.
      { intros m' [->|Hin]%elem_of_cons.
        - split; [done|]. exists (u32 (second + firstFileOffset a)), mbr.
          by eapply lookup_weaken.
        - apply Hnew in Hin as [Hin ?]. split; [|done].
          intros ?. by apply Hin, elem_of_union_r. }
      split; [simpl; lia|]. split; [|done].
      intros s [->|Hin]%elem_of_cons Hnone; [congruence|by apply Hleft].
  - by eapply (Hkept Added res err).
  - by eapply (Hkept Added res (Some msg)).
Qed.

(** What a call of [findModulesDefiningSymbols] does to its reference
    parameters.  The names left in the set are names of the set, in their
    order; the result vector keeps what the caller had in it and gains
    modules that are distinct and all held by the module cache; for every
    module gained exactly one name is erased; a name that the symbol table
    does not hold is never erased; and a call that returns [false] leaves
    set and vector as they were and gives a message. *)
Theorem findModulesDefiningSymbols_accounting symbols res a ok r a' :
  findModulesDefiningSymbols C symbols res a = Returned (ok, r) a' ->
  symbols_left r `sublist_of` symbols
  /\ exists new,
       result r = res ++ new
       /\ NoDup new
       /\ (forall m, m ∈ new -> exists k mbr, modules a' !! k = Some (m, mbr))
       /\ length symbols = (length (symbols_left r) + length new)%nat
       /\ (forall s, s ∈ symbols -> symTab a' !! s = None -> s ∈ symbols_left r)
       /\ (ok = false ->
           symbols_left r = symbols /\ new = [] /\ is_Some (error r)).
Proof.
  unfold findModulesDefiningSymbols. intros H.
  assert (Hfalse : forall msg,
             symbols `sublist_of` symbols
             /\ exists new,
                  res = res ++ new /\ NoDup new
                  /\ (forall m, m ∈ new ->
                        exists k mbr, modules a' !! k = Some (m, mbr))
                  /\ length symbols = (length symbols + length new)%nat
                  /\ (forall s, s ∈ symbols -> symTab a' !! s = None -> s ∈ symbols)
                  /\ (false = false ->
                      symbols = symbols /\ new = []
                      /\ is_Some (Some (msg : string)))).
  { intros msg. split; [done|]. exists []. rewrite app_nil_r.
    split; [done|]. split; [constructor|]. split; [by intros m ?%elem_of_nil|].
    split; [simpl; lia|]. split; [done|]. eauto. }
  destruct (mapfile a); [|simplify_eq; apply Hfalse].
  destruct (if symTab_empty a then buildSymbolTable C a else Returned OK a)
    as [s a1|]; [|done].
  destruct s as [|msg]; [|simplify_eq; apply Hfalse].
  destruct (resolveLoop C symbols ∅ res None a1) as [r1 a2|] eqn:E; [|done].
  simplify_eq.
  pose proof (resolveLoop_frame C _ _ _ _ _ _ _ E) as [Hsym _].
  apply resolveLoop_accounting in E
    as (Hsub & new & E2 & Hnd & Hnew & Hlen & Hleft & _).
  split; [done|]. exists new. split; [done|]. split; [done|].
  split; [by intros m [_ ?]%Hnew|]. split; [done|]. split; [|done].
  intros s Hin Hnone. apply Hleft; [done|]. by rewrite <- Hsym.
Qed.
End Resolution.

(** ** Parsing every bitcode member *)

Section EveryModule.
Context (C : Collaborators).

Lemma getAllModules_loop_spec ms Modules a failed Modules' a' :
  getAllModules_loop C ms Modules a = (failed, Modules', a') ->
  exists tried rest,
    filter (fun m => isBitcode m = true) ms = tried ++ rest
    /\ Forall (fun m => parseBitcodeFile C (payload a m) = true) tried
    /\ Modules' = Modules ++ seq (nextModule a) (length tried)
    /\ nextModule a' = (nextModule a + length tried)%nat
    /\ (if failed then
          exists m rest',
            rest = m :: rest' /\ parseBitcodeFile C (payload a m) = false
            /\ trace a'
               = trace a ++ map (fun m => EvParseBitcodeFile (getData m))
                                (tried ++ [m])
        else
          rest = []
          /\ trace a'
             = trace a ++ map (fun m => EvParseBitcodeFile (getData m)) tried)
    /\ members a' = members a /\ modules a' = modules a
    /\ symTab a' = symTab a /\ mapfile a' = mapfile a.
Proof.
  revert Modules a. induction ms as [|mbr ms IH]; intros Modules a H; simpl in H.
  { simplify_eq. exists [], []. simpl. rewrite !app_nil_r.
    repeat (split; [done || lia|]). done. }
  rewrite filter_cons. destruct (isBitcode mbr) eqn:Hbc.
  - rewrite decide_True by done.
    change (payload (log (EvParseBitcodeFile (getData mbr)) a) mbr)
      with (payload a mbr) in H.
    destruct (parseBitcodeFile C (payload a mbr)) eqn:Hp.
    + apply IH in H
        as (tried & rest & E & Hall & HM & Hn & Hf & H1 & H2 & H3 & H4).
      cbn in *. exists (mbr :: tried), rest.
      split; [by rewrite E|]. split; [by constructor|].
      split; [by rewrite HM, <- app_assoc|]. split; [simpl; lia|].
      split; [|done].
      destruct failed.
      * destruct Hf as (m & rest' & -> & Hm & Ht). exists m, rest'.
        split; [done|]. split; [done|]. by rewrite Ht, <- app_assoc.
      * destruct Hf as [-> Ht]. split; [done|]. by rewrite Ht, <- app_assoc.
    + simplify_eq. exists [], (mbr :: filter (fun m => isBitcode m = true) ms).
      cbn. rewrite app_nil_r. split; [done|]. split; [constructor|].
      split; [done|]. split; [lia|]. split; [|done]. eauto.
  - rewrite decide_False by congruence. by apply IH.
Qed.

(** [getAllModules] parses the bitcode members of the member list in order
    and stops at the first that does not parse.  It returns [true] exactly
    when it stopped for that reason; the modules of the members parsed before
    stay in the caller's vector, after what the vector held, one new module
    for each of them.  Members that are not bitcode are not given to the
    parser, and neither the module cache nor the symbol table changes. *)
Theorem getAllModules_spec Modules a failed Modules' a' :
  getAllModules C Modules a = (failed, Modules', a') ->
  exists tried rest,
    filter (fun m => isBitcode m = true) (members a) = tried ++ rest
    /\ Forall (fun m => parseBitcodeFile C (payload a m) = true) tried
    /\ Modules' = Modules ++ seq (nextModule a) (length tried)
    /\ (failed = true <->
        exists m, head rest = Some m /\ parseBitcodeFile C (payload a m) = false)
    /\ (failed = false <-> rest = [])
    /\ trace a'
       = trace a ++ map (fun m => EvParseBitcodeFile (getData m))
                        (tried ++ take 1 rest)
    /\ members a' = members a /\ modules a' = modules a
    /\ symTab a' = symTab a.
Proof.
  unfold getAllModules. intros H.
  apply getAllModules_loop_spec in H
    as (tried & rest & E & Hall & HM & _ & Hf & H1 & H2 & H3 & _).
  exists tried, rest. split; [done|]. split; [done|]. split; [done|].
  destruct failed.
  - destruct Hf as (m & rest' & -> & Hm & Ht).
    split; [split; [eauto|done]|]. split; [split; [done|done]|].
    by split.
  - destruct Hf as [-> Ht]. split.
    { split; [done|]. by intros (m & ? & _). }
    split; [done|]. simpl. by rewrite app_nil_r.
Qed.
End EveryModule.

(** ** What the detector gives to the parser *)

Section Detector.
Context (C : Collaborators).

(** With an empty symbol table the detector calls the bitcode parser at most
    once: not at all when it answers [false] because a load failed or no
    member is bitcode, and otherwise once, on the first bitcode member of
    the list that the full load built, whose verdict is the answer.  No other
    function of the bitcode reader is called. *)
Theorem isBitcodeArchive_parses_once a b a' :
  symTab a = ∅ ->
  isBitcodeArchive C a = Returned b a' ->
  (b = false /\ trace a' = trace a)
  \/ exists mbr,
       find isBitcode (members a') = Some mbr
       /\ trace a' = trace a ++ [EvParseBitcodeFile (getData mbr)]
       /\ b = parseBitcodeFile C (payload a' mbr).
Proof.
  intros He H. unfold isBitcodeArchive in H.
  apply symTab_empty_true in He as Hb. rewrite Hb in H.
  destruct (loadSymbolTable C a) as [s a1|] eqn:E1; [|done].
  apply loadSymbolTable_frame in E1 as (_ & _ & Hs1 & _ & _ & Ht1).
  destruct s; [|simplify_eq; auto].
  rewrite symTab_size_zero in H.
  assert (Hb1 : symTab_empty a1 = true) by (apply symTab_empty_true; congruence).
  rewrite Hb1 in H. simpl in H.
  destruct (loadArchive C a1) as [s a2|] eqn:E2; [|done].
  apply loadArchive_frame in E2 as (_ & _ & Ht2).
  destruct s; [|simplify_eq; left; split; [done|congruence]].
  destruct (find isBitcode (members a2)) as [mbr|] eqn:Hfind; simplify_eq.
  - right. exists mbr. cbn. split; [done|]. split; [congruence|done].
  - left. split; [done|congruence].
Qed.
End Detector.

(** ** The scans end *)

Section ScansEnd.
Context (C : Collaborators).

End ScansEnd.

(** ** The further properties at the example archives *)

(** The member of [sizeWraps]: header at 8, payload at 68; the size field
    4294967300 reads as the [int] 4, and the payload ends at 72, the end of
    the file. *)
Lemma parseMemberHeader_postcondition_witness :
  exists mbr,
    parseMemberHeader toyReader sizeWraps [] 8 72 = ParseOk mbr 68
    /\ data mbr = 68 /\ Size mbr = 4 /\ payloadEnd mbr = 72
    /\ isBitcode mbr = false.
Proof.
  eexists. split; [evaluate; reflexivity|].
  match goal with
  | |- data ?m = _ /\ _ =>
      destruct (parseMemberHeader_postcondition toyReader sizeWraps [] 8 72 m 68)
        as (Hdata & _ & _ & _ & _ & _ & Hsize & Hend & Hbc)
  end.
  - vm_compute. reflexivity.
  - split; [symmetry; exact Hdata|]. split; [rewrite Hsize; vm_compute; reflexivity|].
    split; [rewrite Hend; vm_compute; [reflexivity|discriminate]|].
    rewrite Hbc. vm_compute. reflexivity.
Defined.

(** The string table of [withStringTable] is classified by its name field. *)
Lemma parseMemberHeader_classifies_witness :
  exists mbr,
    parseMemberHeader toyReader withStringTable [] 8 152 = ParseOk mbr 68
    /\ isStringTable mbr = true /\ isSVR4SymbolTable mbr = false
    /\ isBSD4SymbolTable mbr = false.
Proof.
  eexists. split; [evaluate; reflexivity|].
  match goal with
  | |- isStringTable ?m = _ /\ _ =>
      destruct (parseMemberHeader_classifies toyReader withStringTable [] 8 152 m 68)
        as (H1 & H2 & H3 & _)
  end.
  - lia.
  - vm_compute. reflexivity.
  - rewrite H1, H2, H3. vm_compute. repeat split.
Defined.


(** The member of [referencing] refers to a string table that was never
    captured. *)
Lemma parseMemberHeader_strtab_dangling_witness :
  parseMemberHeader toyReader referencing [] 8 70
  = ParseError "name index beyond string table".
Proof.
  apply (proj1 (proj2 (proj2
           (parseMemberHeader_strtab_dangling toyReader referencing [] 8 70
              2 ["0"] " " (drop 3 (bytesAt referencing 8))
              ltac:(lia) ltac:(vm_compute; reflexivity)
              ltac:(vm_compute; reflexivity) ltac:(lia)
              ltac:(vm_compute; discriminate) ltac:(vm_compute; reflexivity)
              ltac:(vm_compute; reflexivity) ltac:(discriminate)
              ltac:(repeat constructor) ltac:(reflexivity))))).
  vm_compute. discriminate.
Defined.

(** The full load of [twoDefiners]. *)
Lemma loadArchive_members_witness :
  exists r a',
    loadArchive toyReader (openArchive twoDefiners) = Returned r a'
    /\ Forall ordinary (members a')
    /\ StronglySorted before (members a').
Proof.
  do 2 eexists. split; [evaluate; reflexivity|].
  match goal with
  | |- Forall ordinary (members ?a') /\ _ =>
      destruct (loadArchive_members toyReader (openArchive twoDefiners) OK a')
        as (H1 & H2 & _ & _)
  end.
  - evaluate. reflexivity.
  - split; [exact H1|exact H2].
Defined.

(** The full load of [withStringTable] skips the string table at 8: the
    first member of the list is the one decoded at 88. *)
Lemma loadArchive_firstFileOffset_witness :
  exists r a',
    loadArchive toyReader (openArchive withStringTable) = Returned r a'
    /\ match members a' with
       | [] => firstFileOffset a' = 0
       | mbr :: _ =>
           exists Save strtab,
             scanned 4096 withStringTable 8 Save
             /\ firstFileOffset a' = u32 Save
             /\ parseMemberHeader toyReader withStringTable strtab Save 152
                = ParseOk mbr (data mbr)
       end.
Proof.
  do 2 eexists. split; [evaluate; reflexivity|].
  match goal with
  | |- match members ?a' with _ => _ end =>
      exact (loadArchive_firstFileOffset toyReader (openArchive withStringTable)
               OK a' ltac:(evaluate; reflexivity))
  end.
Defined.

(** The anchor load of [withStringTable]. *)
Lemma loadSymbolTable_anchor_witness :
  exists a',
    loadSymbolTable toyReader (openArchive withStringTable) = Returned OK a'
    /\ symTab a' = ∅ /\ modules a' = ∅
    /\ exists mbr, members a' = [mbr].
Proof.
  eexists. split; [evaluate; reflexivity|].
  match goal with
  | |- symTab ?a' = _ /\ _ =>
      destruct (loadSymbolTable_anchor toyReader (openArchive withStringTable)
                  OK a' ltac:(evaluate; reflexivity))
        as (H1 & H2 & FirstFile & mbr & strtab & H3 & _)
  end.
  split; [exact H1|]. split; [exact H2|]. exists mbr. exact H3.
Defined.

(** The symbol table built from [twoDefiners]: the entry of "g". *)
Lemma buildSymbolTable_sound_witness :
  let a := set_firstFileOffset 8 (openArchive twoDefiners) in
  exists r a',
    buildSymbolTable toyReader a = Returned r a'
    /\ symTab a' !! "g"%string = Some 0
    /\ exists P,
         scanned 4096 twoDefiners 8 P
         /\ 0 = u32 (P - 8)
         /\ definedAt toyReader a P "g".
Proof.
  intros a. do 2 eexists. split; [evaluate; reflexivity|].
  split; [vm_compute; reflexivity|].
  match goal with
  | |- context [scanned] =>
      destruct (buildSymbolTable_sound toyReader a OK
                  _ "g"%string 0
                  ltac:(reflexivity) ltac:(evaluate; reflexivity)
                  ltac:(vm_compute; reflexivity))
        as (_ & P & H1 & H2 & _ & H3)
  end.
  exists P. split; [exact H1|]. split; [exact H2|exact H3].
Defined.

(** The symbol table built from [twoDefiners] holds "f", which the member
    at 74 defines. *)
Lemma buildSymbolTable_complete_witness :
  let a := set_firstFileOffset 8 (openArchive twoDefiners) in
  exists a',
    buildSymbolTable toyReader a = Returned OK a'
    /\ is_Some (symTab a' !! "f"%string).
Proof.
  intros a. eexists. split; [evaluate; reflexivity|].
  eapply (buildSymbolTable_complete toyReader a _ 74 "f"%string).
  - evaluate. reflexivity.
  - change 74 with (Z.add 74 0).
    replace (74 + 0) with (nextHeader 4096 twoDefiners 8)
      by (vm_compute; reflexivity).
    apply scanned_next, scanned_start.
  - vm_compute. reflexivity.
  - do 2 eexists. split; [evaluate; refine (f_equal2 ParseOk _ _); reflexivity|].
    split; [vm_compute; reflexivity|].
    split; [vm_compute; reflexivity|]. apply list_elem_of_here.
Defined.

(** A session on [twoDefiners]. *)
Lemma calls_keep_witness :
  let a := openArchive twoDefiners in
  exists a',
    calls toyReader
          [CallLoadSymbolTable; CallFindModules ["f"]%string [];
           CallFindModule "f"; CallLoadArchive; CallGetAllModules [];
           CallIsBitcodeArchive] a = Some a'
    /\ mapfile a' = mapfile a
    /\ trace a `prefix_of` trace a'
    /\ cacheSound a'.
Proof.
  intros a. eexists. split; [evaluate; reflexivity|].
  match goal with
  | |- mapfile ?a' = _ /\ _ =>
      destruct (calls_keep toyReader
                  [CallLoadSymbolTable; CallFindModules ["f"]%string [];
                   CallFindModule "f"; CallLoadArchive; CallGetAllModules [];
                   CallIsBitcodeArchive] a a' ltac:(evaluate; reflexivity))
        as (H1 & _ & _ & H4 & H5)
  end.
  split; [exact H1|]. split; [exact H4|]. apply H5.
  split; intros *; cbn; rewrite lookup_empty; discriminate.
Defined.

(** "f" in [threeSymbols], looked up twice. *)
Lemma findModuleDefiningSymbol_again_witness :
  let a := set_symTab {[ "f"%string := 0 ]}
             (set_firstFileOffset 8 (openArchive threeSymbols)) in
  exists a' m,
    findModuleDefiningSymbol toyReader "f" a = Returned Null a'
    /\ findModuleDefiningSymbol toyReader "f" a' = Returned (Found m) a'.
Proof.
  intros a.
  assert (exists a', findModuleDefiningSymbol toyReader "f" a = Returned Null a')
    as [a' E] by (eexists; evaluate; reflexivity).
  destruct (findModuleDefiningSymbol_again toyReader "f"%string a Null a'
              ltac:(vm_compute; eauto) E ltac:(discriminate))
    as (m & H1 & _).
  exists a', m. split; [exact E|exact H1].
Defined.

(** Three names resolved against [twoDefiners], after a first call has
    loaded the member that defines "f". *)
Lemma findModulesDefiningSymbols_accounting_witness :
  let a := default (openArchive [])
             (calls toyReader
                    [CallLoadSymbolTable; CallFindModules ["f"]%string []]
                    (openArchive twoDefiners)) in
  exists ok r a',
    findModulesDefiningSymbols toyReader ["f"; "g"; "h"]%string [] a
    = Returned (ok, r) a'
    /\ symbols_left r `sublist_of` ["f"; "g"; "h"]%string
    /\ exists new, result r = new /\ NoDup new.
Proof.
  intros a. do 3 eexists. split; [evaluate; reflexivity|].
  match goal with
  | |- symbols_left ?r `sublist_of` _ /\ _ =>
      destruct (findModulesDefiningSymbols_accounting toyReader
                  ["f"; "g"; "h"]%string [] a true r _
                  ltac:(evaluate; reflexivity))
        as (H1 & new & H2 & H3 & _)
  end.
  split; [exact H1|]. exists new. split; [exact H2|exact H3].
Defined.

(** Every member of [twoDefiners] parses. *)
Lemma getAllModules_spec_witness :
  let a := default (openArchive []) (OpenAndLoad toyReader twoDefiners) in
  exists Modules' a',
    getAllModules toyReader [] a = (false, Modules', a')
    /\ length Modules' = 2%nat /\ modules a' = ∅.
Proof.
  intros a. do 2 eexists. split; [evaluate; reflexivity|].
  match goal with
  | |- length ?M = _ /\ modules ?a' = _ =>
      destruct (getAllModules_spec toyReader [] a false M a'
                  ltac:(evaluate; reflexivity))
        as (tried & rest & _ & _ & _ & _ & _ & _ & _ & H & _)
  end.
  split; [reflexivity|]. exact H.
Defined.

(** The detector on [twoDefiners]. *)
Lemma isBitcodeArchive_parses_once_witness :
  let a := openArchive twoDefiners in
  exists b a',
    isBitcodeArchive toyReader a = Returned b a'
    /\ ((b = false /\ trace a' = trace a)
        \/ exists mbr,
             find isBitcode (members a') = Some mbr
             /\ trace a' = trace a ++ [EvParseBitcodeFile (getData mbr)]
             /\ b = parseBitcodeFile toyReader (payload a' mbr)).
Proof.
  intros a. do 2 eexists. split; [evaluate; reflexivity|].
  eapply (isBitcodeArchive_parses_once toyReader a).
  - reflexivity.
  - evaluate. reflexivity.
Defined.


(** The arithmetic of [int] and [unsigned] at three headers.  The size field
    4294967300 is accepted as 4.  The name [/4294967296] refers to offset 0
    of the string table.  An inline name announced as 1000000 bytes in a
    file of 72 takes the decoder outside the file, and no load of that file
    returns. *)
Lemma fields_wrap_around :
  atoi (bytesAt sizeWraps (8 + off_size)) = 4
  /\ match parseMemberHeader toyReader sizeWraps [] 8 72 with
     | ParseOk mbr At => At = 68 /\ Size mbr = 4
     | _ => False
     end
  /\ match parseMemberHeader toyReader indexWraps
             (list_ascii_of_string "a.o/" ++ [LF]) 8 70 with
     | ParseOk mbr At => path mbr = list_ascii_of_string "a.o"
     | _ => False
     end
  /\ inlineLen nameBeyondEnd 8 = 1000000
  /\ parseMemberHeader toyReader nameBeyondEnd [] 8 72 = ParseOutOfBounds
  /\ loadArchive toyReader (openArchive nameBeyondEnd) = Crashed
  /\ loadSymbolTable toyReader (openArchive nameBeyondEnd) = Crashed.
Proof.
  vm_compute. repeat split.
Qed.

(** ** Where the width of [int] and [unsigned] shows *)

Section Widths.
Context (C : Collaborators).

(** An inline name of any length that an [unsigned] holds and that fits
    before [End], whether or not the size field counts it: the member's size
    is what [MemberSize -= len] leaves in the [int]. *)
Lemma parseMemberHeader_inline_name_any buf strtab At End digits c rest s :
  0 <= At -> At + sizeofHeader < End ->
  bytesAt buf At = "#" :: "1" :: "/" :: digits ++ c :: rest ->
  digits <> [] -> Forall (fun d => isdigit d = true) digits -> isdigit c = false ->
  atoi (bytesAt buf (At + off_size)) = s ->
  0 <= s -> At + sizeofHeader + s <= End ->
  decimal digits < 2 ^ 32 -> At + sizeofHeader + decimal digits <= End ->
  checkMemberSignature buf At = true ->
  exists mbr,
    parseMemberHeader C buf strtab At End
    = ParseOk mbr (At + sizeofHeader + decimal digits)
    /\ data mbr = At + sizeofHeader + decimal digits
    /\ Size mbr = int32 (s - decimal digits)
    /\ ordinary mbr.
Proof.
  intros HAt Hend Hname Hne Hds Hc Hs Hs0 Hfit HN Hin Hsig.
  rewrite (parseMemberHeader_checked C buf strtab At End s) by (auto; lia).
  destruct digits as [|d ds]; [done|]. pose proof (Forall_inv Hds) as Hd.
  assert (H0 : byteAt buf (At + 0) = "#")
    by (rewrite byteAt_offset, Hname by lia; reflexivity).
  assert (H1 : byteAt buf (At + 1) = "1")
    by (rewrite byteAt_offset, Hname by lia; reflexivity).
  assert (H2 : byteAt buf (At + 2) = "/")
    by (rewrite byteAt_offset, Hname by lia; reflexivity).
  assert (H3 : byteAt buf (At + 3) = d)
    by (rewrite byteAt_offset, Hname by lia; reflexivity).
  assert (Hrun : bytesAt buf (At + 3) = (d :: ds) ++ c :: rest)
    by (rewrite bytesAt_offset, Hname by lia; reflexivity).
  unfold decodeName. rewrite H0, H1, H2, H3, Hrun, !Ascii.eqb_refl, Hd.
  rewrite u32_atoi_run by done. cbn [andb].
  destruct (Z.gtb_spec (At + sizeofHeader + decimal (d :: ds)) End); [lia|].
  eexists. split; [reflexivity|]. cbn. by repeat split.
Qed.
(** In a file of 3000000068 bytes that starts with [longNameHeader], the
    member's name ends exactly at the end of the file, and the [int] left by
    [MemberSize -= len], 4 - 3000000000, wraps to 1294967300. *)
Lemma long_inline_name_decoded rest :
  Z.of_nat (length rest) = 3000000000 ->
  let bytes := longNameHeader ++ rest in
  exists mbr,
    parseMemberHeader C bytes [] 8 (Z.of_nat (length bytes))
    = ParseOk mbr 3000000068
    /\ data mbr = 3000000068 /\ Size mbr = 1294967300 /\ ordinary mbr.
Proof.
  intros Hlen bytes.
  assert (Hhdr : length longNameHeader = 68%nat) by (vm_compute; reflexivity).
  assert (HEnd : Z.of_nat (length bytes) = 3000000068).
  { unfold bytes. rewrite length_app, Hhdr. lia. }
  assert (Hat : forall p, (p <= 68)%nat ->
                 drop p bytes = drop p longNameHeader ++ rest).
  { intros p Hp. unfold bytes. apply drop_app_le. lia. }
  destruct (parseMemberHeader_inline_name_any bytes [] 8 (Z.of_nat (length bytes))
              (list_ascii_of_string "3000000000") " "
              (drop 14 (bytesAt longNameHeader 8) ++ rest) 4)
    as (mbr & Hp & Hdata & Hsize & Hord).
  - lia.
  - unfold sizeofHeader. lia.
  - unfold bytesAt. rewrite Hat by (vm_compute; lia). reflexivity.
  - discriminate.
  - repeat constructor.
  - reflexivity.
  - unfold bytesAt. rewrite Hat by (vm_compute; lia).
    change (drop (Z.to_nat (8 + off_size)) longNameHeader)
      with (["4"] ++ " " :: drop 2 (bytesAt longNameHeader 56)).
    rewrite <- app_assoc. cbn [app].
    change ("4" :: " " :: drop 2 (bytesAt longNameHeader 56) ++ rest)
      with (["4"] ++ " " :: (drop 2 (bytesAt longNameHeader 56) ++ rest)).
    rewrite atoi_run; [reflexivity|discriminate|repeat constructor|reflexivity|].
    vm_compute. reflexivity.
  - lia.
  - unfold sizeofHeader. lia.
  - vm_compute. reflexivity.
  - change (decimal (list_ascii_of_string "3000000000")) with 3000000000.
    unfold sizeofHeader. lia.
  - unfold checkMemberSignature, bytesRange, bytesAt.
    rewrite Hat by (vm_compute; lia).
    change (drop (Z.to_nat (8 + off_fmag)) longNameHeader) with ARFILE_MEMBER_MAGIC.
    change (Z.to_nat 2) with 2%nat.
    rewrite take_app_le by (vm_compute; lia). reflexivity.
  - exists mbr.
    change (decimal (list_ascii_of_string "3000000000")) with 3000000000 in *.
    change (8 + sizeofHeader + 3000000000) with 3000000068 in *.
    split; [exact Hp|]. split; [exact Hdata|]. split; [|exact Hord].
    rewrite Hsize. vm_compute. reflexivity.
Qed.

(** [loadArchive] on that file returns and records the member, whose
    payload is then said to end at 4294967368, past the end of the file. *)
Lemma long_inline_name_loaded rest :
  Z.of_nat (length rest) = 3000000000 ->
  let a := openArchive (longNameHeader ++ rest) in
  exists a' mbr,
    loadArchive C a = Returned OK a'
    /\ members a' = [mbr]
    /\ getBufferEnd a = 3000000068
    /\ payloadEnd mbr = 4294967368.
Proof.
  intros Hlen a.
  destruct (long_inline_name_decoded rest Hlen) as (mbr & Hp & Hdata & Hsize & Ho1 & Ho2 & Ho3).
  cbv zeta in Hp.
  assert (Hhdr : length longNameHeader = 68%nat) by (vm_compute; reflexivity).
  assert (HEnd : getBufferEnd a = 3000000068).
  { unfold getBufferEnd, getBufferSize, a, openArchive, buffer. cbn [mapfile default from_option id].
    rewrite length_app, Hhdr. lia. }
  set (begun := set_symTab ∅ (set_members [] a)).
  assert (HEndb : getBufferEnd begun = 3000000068) by exact HEnd.
  assert (Hstep : loadArchive_body C 8 false begun
                  = Continue (4294967368, true)
                      (set_members [mbr] (set_firstFileOffset 8 begun))).
  { unfold loadArchive_body.
    change (buffer begun) with (longNameHeader ++ rest).
    change (strtab begun) with (@nil ascii).
    rewrite HEndb.
    replace 3000000068 with (Z.of_nat (length (longNameHeader ++ rest)))
      by (rewrite length_app, Hhdr; lia).
    rewrite Hp, Ho1, Ho2, Ho3. cbn [orb].
    unfold skipPayload, getSize. rewrite Hsize. reflexivity. }
  exists (set_members [mbr] (set_firstFileOffset 8 begun)), mbr.
  split; [|split; [reflexivity|split; [exact HEnd|]]].
  - unfold loadArchive. fold begun. 
    change (isMapped begun) with true.
    assert (Hsig : checkSignature begun = true).
    { unfold checkSignature. unfold getBufferSize.
      change (buffer begun) with (longNameHeader ++ rest).
      rewrite take_app_le by (rewrite Hhdr; lia).
      rewrite length_app, Hhdr.
      destruct (Z.ltb_spec (Z.of_nat (68 + length rest)) 8); [lia|].
      reflexivity. }
    rewrite Hsig. cbn [negb].
    destruct (Z.to_nat (getBufferEnd begun - 8)) as [|n] eqn:En; [lia|].
    cbn [loadArchive_loop]. rewrite HEndb.
    destruct (Z.ltb_spec 8 3000000068); [|lia].
    rewrite Hstep.
    destruct n as [|n]; [reflexivity|].
    cbn [loadArchive_loop].
    change (getBufferEnd (set_members [mbr] (set_firstFileOffset 8 begun)))
      with (getBufferEnd begun). rewrite HEndb.
    reflexivity.
  - unfold payloadEnd. rewrite Hdata, Hsize. reflexivity.
Qed.

(** A name [/digits] whose number an [unsigned] does not hold is looked up
    at its low 32 bits. *)
Lemma parseMemberHeader_strtab_name_low_bits
      buf strtab At End s digits c rest pre name post :
  0 <= At -> At + sizeofHeader < End ->
  atoi (bytesAt buf (At + off_size)) = s ->
  0 <= s -> At + sizeofHeader + s <= End ->
  checkMemberSignature buf At = true ->
  bytesAt buf At = "/" :: digits ++ c :: rest ->
  digits <> [] -> Forall (fun d => isdigit d = true) digits -> isdigit c = false ->
  strtab = pre ++ name ++ "/" :: LF :: post ->
  decimal digits < 2 ^ 63 ->
  decimal digits mod 2 ^ 32 = Z.of_nat (length pre) ->
  LF ∉ name ->
  exists mbr,
    parseMemberHeader C buf strtab At End = ParseOk mbr (At + sizeofHeader)
    /\ path mbr = name /\ Size mbr = s.
Proof.
  intros HAt Hend Hs Hs0 Hfit Hsig Hname Hne Hds Hc -> Hlong Hidx Hno.
  rewrite (parseMemberHeader_checked C buf _ At End s) by (auto; lia).
  rewrite (decodeName_reference buf _ At _ s digits c rest) by done.
  cbv zeta.
  assert (Hu : u32 (atoi (digits ++ c :: rest)) = Z.of_nat (length pre)).
  { pose proof (decimal_nonneg digits Hds). rewrite <- Hidx.
    unfold atoi, strtol, LONG_MIN, LONG_MAX. rewrite readDecimal_run by done.
    rewrite Z.min_r, Z.max_r by lia. by rewrite u32_int32. }
  rewrite Hu, Nat2Z.id, drop_app_length.
  destruct (Z.ltb_spec (Z.of_nat (length pre))
              (Z.of_nat (length (pre ++ name ++ "/" :: LF :: post)))) as [_|Hge].
  2: { rewrite !length_app in Hge. simpl in Hge. lia. }
  rewrite scanName_terminator by done. simpl Nat.add.
  rewrite take_app_length.
  destruct (Z.gtb_spec (At + sizeofHeader) End); [lia|].
  eexists. split; [reflexivity|]. cbn. by repeat split.
Qed.
End Widths.

(** There is a file on which [loadArchive] returns with a member whose
    payload is said to end past the end of the file: the bound on the end
    of a payload holds only where an [int] counts the whole file. *)
Lemma long_inline_name_overruns :
  exists bytes a' mbr,
    loadArchive toyReader (openArchive bytes) = Returned OK a'
    /\ members a' = [mbr]
    /\ getBufferEnd (openArchive bytes) < payloadEnd mbr.
Proof.
  destruct (long_inline_name_loaded toyReader (replicate (Z.to_nat 3000000000) "a"))
    as (a' & mbr & H1 & H2 & H3 & H4).
  { rewrite length_replicate. apply Z2Nat.id. lia. }
  exists (longNameHeader ++ replicate (Z.to_nat 3000000000) "a"), a', mbr.
  split; [exact H1|]. split; [exact H2|]. rewrite H3, H4. lia.
Qed.
